(** * Lobby routes of the durak-cards server

    A shallow embedding of the express handlers of the lobby router
    (GET /:pin, DELETE /:pin, POST /:pin/join, POST /:pin/name) and the
    properties of slot allocation, admission order and persistence that
    the specification states about them.

    The handlers are modelled after their middleware has run: the pin is
    the route parameter, [req_token] is what [withAuth]/[ownerAuth] left in
    [req.token], and the body is the parsed JSON body.  The Mongo
    collection is an ordered list of documents; every handler takes the
    collection and returns an [Outcome]: the response it sent, the
    collection it leaves behind, the writes it issued and the events it
    emitted. *)

From Stdlib Require Import ZArith QArith List String Ascii Bool Lia.
From stdpp Require Import base list.
Import ListNotations.

Local Open Scope string_scope.
Local Open Scope Z_scope.

(** ** JavaScript values found in a request body *)

Module Js.

(** The values a JSON body field can take, plus [undefined] for an
    absent field.  A string is its sequence of code units. *)
Inductive value : Type :=
| Undefined
| Null
| Bool (b : bool)
| Num (z : Z)
| Str (s : string).

(** [a === b] on these values. *)
Definition strict_eq (a b : value) : bool :=
  match a, b with
  | Undefined, Undefined => true
  | Null, Null => true
  | Bool x, Bool y => Bool.eqb x y
  | Num x, Num y => Z.eqb x y
  | Str x, Str y => String.eqb x y
  | _, _ => false
  end.

(** A schema field that may be missing reads as [undefined]. *)
Definition of_option (o : option string) : value :=
  match o with
  | Some s => Str s
  | None => Undefined
  end.

(** [Array.prototype.findIndex]: the index of the first element that
    satisfies [f], or -1. *)
Fixpoint findIndex {A : Type} (f : A -> bool) (l : list A) : Z :=
  match l with
  | [] => -1
  | x :: xs =>
      if f x then 0
      else let r := findIndex f xs in
           if r <? 0 then -1 else r + 1
  end.

(** [l[i] = v].  A negative key is an ordinary property of the array
    object: no element changes and the length stays.  An index inside
    the array replaces that element.  ([findIndex] never yields an index
    at or past the length, so the sparse-array case does not arise.) *)
Definition assign {A : Type} (l : list A) (i : Z) (v : A) : list A :=
  if i <? 0 then l else <[Z.to_nat i := v]> l.

(** [l.push(v)]. *)
Definition push {A : Type} (l : list A) (v : A) : list A :=
  (l ++ [v])%list.

(** A finite number, as the rational it denotes: whole or not, as
    [2] and [2.5] are.  (Both zeros denote 0, which is how [===] sees
    them.) *)
Definition number : Type := Q.

(** The number that the [length] of an array is. *)
Definition of_length (n : nat) : number := inject_Z (Z.of_nat n).

(** [a === b] on finite numbers. *)
Definition number_eq (a b : number) : bool := Qeq_bool a b.

End Js.

(** ** Joi schemas used by the routes *)

Module Joi.

(** Code units matched by [\s] among the first 256. *)
Definition is_space (c : ascii) : bool :=
  let n := N_of_ascii c in
  (((9 <=? n) && (n <=? 13)) || (n =? 32) || (n =? 160))%N.

(** [/^[^\s]{1,20}$/]. *)
Definition name_regex (s : string) : bool :=
  (1 <=? String.length s)%nat && (String.length s <=? 20)%nat
  && forallb (fun c => negb (is_space c)) (list_ascii_of_string s).

(** [Joi.string().length(4)]: an absent value is accepted (the schema is
    not [required]); any other value has to be a string of length 4. *)
Definition passphraseValidator (v : Js.value) : bool :=
  match v with
  | Js.Undefined => true
  | Js.Str s => (String.length s =? 4)%nat
  | _ => false
  end.

(** [Joi.string().regex(/^[^\s]{1,20}$/).min(1).max(20).required()]. *)
Definition nameValidator (v : Js.value) : bool :=
  match v with
  | Js.Str s =>
      name_regex s && (1 <=? String.length s)%nat
      && (String.length s <=? 20)%nat
  | _ => false
  end.

End Joi.

(** ** Documents *)

Definition ObjectId := N.

(** Modelled from the spec: the [GameStatus] enumeration of the shared
  package is not part of the sources; the data model lists
  WAITING, PLAYING and CLOSED. *)
Inductive GameStatus : Type := WAITING | PLAYING | CLOSED.

Definition GameStatus_eqb (a b : GameStatus) : bool :=
match a, b with
| WAITING, WAITING | PLAYING, PLAYING | CLOSED, CLOSED => true
| _, _ => false
end.

Record Player : Type := mkPlayer {
name : string;
socketId : option string;
confirmed : bool;
registered : bool
}.

(** The fields of a lobby document that the routes read or write.
    [maxPlayers] is the number the create route stored: its schema asks
    for a number between bounds, not for a whole one. *)
Record Lobby : Type := mkLobby {
_id : ObjectId;
pin : string;
passphrase : option string;
with2FA : bool;
maxPlayers : Js.number;
status : GameStatus;
owner : ObjectId;
players : list Player
}.

Definition set_players (l : Lobby) (ps : list Player) : Lobby :=
{| _id := _id l; pin := pin l; passphrase := passphrase l;
   with2FA := with2FA l; maxPlayers := maxPlayers l; status := status l;
   owner := owner l; players := ps |}.

(** ** The lobby collection *)

Module Repo.

Definition collection := list Lobby.

(** [Lobby.findOne({pin})]. *)
Definition findOne (db : collection) (p : string) : option Lobby :=
  List.find (fun l => String.eqb (pin l) p) db.

(** [Lobby.findOneAndUpdate({_id}, {$set: {players}})]: the first
    document with that id gets the whole array replaced. *)
Fixpoint findOneAndUpdate (db : collection) (i : ObjectId)
         (ps : list Player) : collection :=
  match db with
  | [] => []
  | l :: rest =>
      if N.eqb (_id l) i then set_players l ps :: rest
      else l :: findOneAndUpdate rest i ps
  end.

(** [Lobby.deleteOne({pin})]: the first document with that pin goes. *)
Fixpoint deleteOne (db : collection) (p : string) : collection :=
  match db with
  | [] => []
  | l :: rest =>
      if String.eqb (pin l) p then rest else l :: deleteOne rest p
  end.

End Repo.

(** ** Requests, responses and events *)

(** The claims of an account token, [req.token.data]. *)
Record TokenData : Type := mkTokenData {
  token_id : ObjectId;
  token_name : string
}.

(** The body fields the routes read; an absent field is [Js.Undefined]. *)
Record Body : Type := mkBody {
  body_passphrase : Js.value;
  body_name : Js.value
}.

Record Request : Type := mkRequest {
  req_pin : string;
  req_token : option TokenData;
  req_body : Body
}.

(** The keys of the shared [error] table that the routes send. *)
Inductive ErrorConst : Type :=
| BAD_REQUEST
| NON_EXISTENT_LOBBY
| LOBBY_FULL
| INVALID_PASSPHRASE
| UNAUTHORIZED
| INTERNAL_SERVER_ERROR.

(** A message is an entry of the shared table or a literal of the route. *)
Inductive Message : Type :=
| Shared (e : ErrorConst)
| Literal (s : string).

(** Modelled from the spec: [createTokens] of the authentication module
    is not part of the sources.  The credential issuer returns an access
    and a refresh credential, each encoding the name and the pin. *)
Inductive Credential : Type :=
| AccessCredential (player pin : string)
| RefreshCredential (player pin : string).

Definition createTokens (player p : string) : Credential * Credential :=
  (AccessCredential player p, RefreshCredential player p).

Inductive ResData : Type :=
| EchoBody (b : Body)
| LobbyView (p : string) (twoFA : bool).

(** [res.status(code).json({...})]: the status code and the fields the
    routes put in the JSON object; a field that is not sent is [None]. *)
Record Response : Type := mkResponse {
  res_code : Z;
  res_status : bool;
  res_message : Message;
  res_err : option string;
  res_extra : option Message;
  res_data : option ResData;
  res_token : option Credential;
  res_refreshToken : option Credential
}.

(** Modelled from the spec: the [ClientEvents] enumeration of the shared
    package is not part of the sources; the routes emit its closure
    event only. *)
Inductive ClientEvents : Type := CLOSE.

(** One call [emitLobbyEvent(pin, event, {reason})]. *)
Record LobbyEvent : Type := mkLobbyEvent {
  ev_pin : string;
  ev_kind : ClientEvents;
  ev_reason : string
}.

(** A call that a handler makes on the collection. *)
Inductive RepoWrite : Type :=
| UpdatePlayers (i : ObjectId) (ps : list Player)
| DeleteByPin (p : string).

(** What a handler has done when it returns: the response it sent, the
    collection it leaves, the write calls it issued to the driver and the
    events it emitted, both in program order. *)
Record Outcome : Type := mkOutcome {
  response : Response;
  stored : Repo.collection;
  writes : list RepoWrite;
  emitted : list LobbyEvent
}.

(** A return that has neither written nor emitted. *)
Definition reply (r : Response) (db : Repo.collection) : Outcome :=
  mkOutcome r db [] [].

(** *** The responses of the routes, one per return site *)

Definition NotFound : Response :=
  mkResponse 404 false (Shared NON_EXISTENT_LOBBY) None None None None None.

Definition BadRequest (b : Body) : Response :=
  mkResponse 400 false (Shared BAD_REQUEST) None None (Some (EchoBody b))
             None None.

Definition LobbyFull : Response :=
  mkResponse 400 false (Shared LOBBY_FULL) (Some "LOBBY_FULL") None None
             None None.

Definition InvalidPassphrase : Response :=
  mkResponse 401 false (Shared INVALID_PASSPHRASE)
             (Some "INVALID_PASSPHRASE") None None None None.

Definition AlreadyJoined : Response :=
  mkResponse 400 false (Literal "Can't join the game twice.") None None None
             None None.

Definition NameTaken : Response :=
  mkResponse 400 false (Literal "Name already taken.") (Some "BAD_INFO")
             None None None None.

(** [{status: true, message: "Pin Valid", ...!registered && {token,
    refreshToken}}]: spreading [false] adds nothing. *)
Definition Joined (is_registered : bool) (t r : Credential) : Response :=
  mkResponse 200 true (Literal "Pin Valid") None None None
             (if negb is_registered then Some t else None)
             (if negb is_registered then Some r else None).

Definition InspectFull : Response :=
  mkResponse 400 false (Shared LOBBY_FULL) None None None None None.

Definition LobbyExists (l : Lobby) : Response :=
  mkResponse 200 true (Literal "Lobby exists.") None None
             (Some (LobbyView (pin l) (with2FA l))) None None.

Definition Unauthorized : Response :=
  mkResponse 401 false (Literal "Unable to delete the game") None
             (Some (Shared UNAUTHORIZED)) None None None.

Definition DeleteFailed : Response :=
  mkResponse 500 false (Shared INTERNAL_SERVER_ERROR) None
             (Some (Literal "Couldn't delete the game at this time.")) None
             None None.

Definition Deleted : Response :=
  mkResponse 200 true (Literal "Successfully delete game lobby.") None None
             None None None.

Definition NameMissing : Response :=
  mkResponse 400 false (Shared BAD_REQUEST) None None None None None.

Definition NameUnavailable : Response :=
  mkResponse 400 false (Literal "Name already taken.") None None None None
             None.

Definition NameAvailable : Response :=
  mkResponse 200 true (Literal "Name not taken.") None None None None None.

(** ** Lobby utilities *)

(** Modelled from the spec: [checkIfNameFree] of utils/lobby is not part
    of the sources.  It is true iff no confirmed slot of the lobby has a
    name equal to the given one (exact, case-sensitive match). *)
Definition checkIfNameFree (l : Lobby) (n : Js.value) : bool :=
  negb (existsb (fun p => confirmed p && Js.strict_eq (Js.Str (name p)) n)
                (players l)).

(** The capacity and status gate shared by GET /:pin and POST /:pin/join:
    [players.length === lobby.maxPlayers || lobby.status !== WAITING]
    over the confirmed players. *)
Definition lobbyClosed (l : Lobby) : bool :=
  Js.number_eq (Js.of_length (length (List.filter confirmed (players l))))
               (maxPlayers l)
  || negb (GameStatus_eqb (status l) WAITING).

(** ** The routes *)

(** GET /:pin *)
Definition getLobby (db : Repo.collection) (p : string) : Response :=
  match Repo.findOne db p with
  | None => NotFound
  | Some lobby =>
      if lobbyClosed lobby then InspectFull else LobbyExists lobby
  end.

(** [lobby.owner._id.equals(req.token?.data.id)] *)
Definition ownerEquals (l : Lobby) (t : option TokenData) : bool :=
  match t with
  | Some d => N.eqb (owner l) (token_id d)
  | None => false
  end.

(** DELETE /:pin.  [driverError] is whether the driver hands an error to
    the callback of [deleteOne]; in that case nothing was deleted. *)
Definition deleteLobby (driverError : bool) (db : Repo.collection)
           (req : Request) : Outcome :=
  match Repo.findOne db (req_pin req) with
  | None => reply NotFound db
  | Some lobby =>
      if negb (ownerEquals lobby (req_token req)) then reply Unauthorized db
      else if driverError
      then mkOutcome DeleteFailed db [DeleteByPin (req_pin req)] []
      else mkOutcome Deleted (Repo.deleteOne db (req_pin req))
                     [DeleteByPin (req_pin req)]
                     [mkLobbyEvent (req_pin req) CLOSE "lobby_closed"]
  end.

(** POST /:pin/join, the part that settles [name] and [registered]: a
    request with a token joins under the account name, any other under
    the name of the body.  [inl] is an early return.  The last match is
    the cast [<string>req.body.name]: the validator has let strings
    through only, so its second arm is never taken. *)
Definition resolveIdentity (lobby : Lobby) (req : Request)
  : Response + (string * bool) :=
  match req_token req with
  | Some t =>
      match List.find (fun p => String.eqb (name p) (token_name t))
                      (List.filter registered (players lobby)) with
      | Some _ => inl AlreadyJoined
      | None => inr (token_name t, true)
      end
  | None =>
      if negb (Joi.nameValidator (body_name (req_body req)))
      then inl (BadRequest (req_body req))
      else if negb (checkIfNameFree lobby (body_name (req_body req)))
      then inl NameTaken
      else match body_name (req_body req) with
           | Js.Str n => inr (n, false)
           | _ => inl (BadRequest (req_body req))
           end
  end.

(** POST /:pin/join, slot placement: overwrite the first slot that is not
    confirmed when every slot is allocated, append otherwise. *)
Definition placePlayer (lobby : Lobby) (player : Player) : list Player :=
  if Js.number_eq (Js.of_length (length (players lobby)))
                  (maxPlayers lobby) then
    let overwriteConnectionIndex :=
      Js.findIndex (fun p => negb (confirmed p)) (players lobby) in
    Js.assign (players lobby) overwriteConnectionIndex player
  else Js.push (players lobby) player.

(** POST /:pin/join *)
Definition joinLobby (db : Repo.collection) (req : Request) : Outcome :=
  match Repo.findOne db (req_pin req) with
  | None => reply NotFound db
  | Some lobby =>
      if negb (Joi.passphraseValidator (body_passphrase (req_body req)))
      then reply (BadRequest (req_body req)) db
      else if lobbyClosed lobby then reply LobbyFull db
      else if with2FA lobby
              && negb (Js.strict_eq (Js.of_option (passphrase lobby))
                                    (body_passphrase (req_body req)))
      then reply InvalidPassphrase db
      else
        match resolveIdentity lobby req with
        | inl rejection => reply rejection db
        | inr (n, reg) =>
            let '(token, refreshToken) := createTokens n (req_pin req) in
            let player := mkPlayer n None false reg in
            let players' := placePlayer lobby player in
            mkOutcome (Joined reg token refreshToken)
                      (Repo.findOneAndUpdate db (_id lobby) players')
                      [UpdatePlayers (_id lobby) players'] []
        end
  end.

(** POST /:pin/name *)
Definition checkName (db : Repo.collection) (p : string) (b : Body)
  : Response :=
  match Repo.findOne db p with
  | None => NotFound
  | Some lobby =>
      match body_name b with
      | Js.Undefined => NameMissing
      | n => if negb (checkIfNameFree lobby n) then NameUnavailable
             else NameAvailable
      end
  end.

(** ** Notions of the specification *)

(** The number of confirmed slots of a lobby. *)
Definition confirmedCount (l : Lobby) : nat :=
  length (List.filter confirmed (players l)).

(** The capacity invariant of the data model: neither the confirmed
    players nor the allocated slots exceed [maxPlayers]. *)
Definition slotsBounded (l : Lobby) : Prop :=
  (Js.of_length (confirmedCount l) <= maxPlayers l)%Q
  /\ (Js.of_length (length (players l)) <= maxPlayers l)%Q.

(** The name occupies a registered slot of the lobby. *)
Definition holdsRegistered (l : Lobby) (n : string) : Prop :=
  exists p, In p (players l) /\ registered p = true /\ name p = n.

(** The name occupies a slot that is both registered and confirmed. *)
Definition holdsRegisteredConfirmed (l : Lobby) (n : string) : Prop :=
  exists p, In p (players l) /\ registered p = true /\ confirmed p = true
            /\ name p = n.

(** The name occupies a confirmed slot, registered or not. *)
Definition holdsConfirmed (l : Lobby) (n : string) : Prop :=
  exists p, In p (players l) /\ confirmed p = true /\ name p = n.

(** The passphrase gate of the join route fails. *)
Definition passphraseMismatch (l : Lobby) (req : Request) : bool :=
  with2FA l
  && negb (Js.strict_eq (Js.of_option (passphrase l))
                        (body_passphrase (req_body req))).

(** The number is a whole one. *)
Definition wholeNumber (x : Js.number) : Prop :=
  exists z : Z, (x == inject_Z z)%Q.

(** The slot the join route builds for a request that it accepts:
    [{name, socketId: null, confirmed: false, registered}], with the
    account name and [registered] set when the request carries a token,
    with the name of the body and [registered] unset when it does not. *)
Definition joiner (req : Request) : option Player :=
  match req_token req with
  | Some t => Some (mkPlayer (token_name t) None false true)
  | None =>
      match body_name (req_body req) with
      | Js.Str n => Some (mkPlayer n None false false)
      | _ => None
      end
  end.

(** The rejections of the join route. *)
Definition joinRejection (req : Request) (r : Response) : Prop :=
  r = NotFound \/ r = BadRequest (req_body req) \/ r = LobbyFull
  \/ r = InvalidPassphrase \/ r = AlreadyJoined \/ r = NameTaken.

(** ** Sample documents and requests *)

Module Sample.

Definition ann : Player := mkPlayer "ann" (Some "sock-1") true true.
Definition bob_pending : Player := mkPlayer "bob" None false true.
Definition cat_pending : Player := mkPlayer "cat" None false false.
Definition dan : Player := mkPlayer "dan" (Some "sock-2") true false.

(** An open lobby without passphrase: two of four slots allocated, the
    second one reserved by a registered account that never connected. *)
Definition open_lobby : Lobby :=
  mkLobby 1%N "482913" None false 4%Q WAITING 70%N [ann; bob_pending].

(** A lobby whose two slots are both confirmed. *)
Definition full_lobby : Lobby :=
  mkLobby 2%N "100200" None false 2%Q WAITING 70%N [ann; dan].

(** A lobby whose game has started. *)
Definition playing_lobby : Lobby :=
  mkLobby 3%N "300400" None false 4%Q PLAYING 70%N [ann; dan].

(** Every slot allocated, the middle one abandoned. *)
Definition stale_lobby : Lobby :=
  mkLobby 4%N "555666" (Some "Q7ZK") true 3%Q WAITING 70%N [ann; cat_pending; dan].

Definition db : Repo.collection :=
  [open_lobby; full_lobby; playing_lobby; stale_lobby].

Definition anonymous (p : string) (pass n : Js.value) : Request :=
  mkRequest p None (mkBody pass n).

Definition account (p : string) (i : ObjectId) (n : string)
           (pass : Js.value) : Request :=
  mkRequest p (Some (mkTokenData i n)) (mkBody pass Js.Undefined).

End Sample.

(** ** Creating a lobby *)

Module Create.

(** The JSON object of the request, kept as sent: the route only hands it
    to the schema and echoes it on a validation error. *)
Definition RawBody := list (string * Js.value).

(** [result.value] of [GameSchema.validate(req.body)], the fields the
    route destructures. *)
Record GameSettings : Type := mkGameSettings {
  set_maxPlayers : Js.number;
  set_with2FA : bool;
  set_roundTimeout : Z;
  set_shortGameDeck : bool;
  set_freeForAll : bool;
  set_randomPlayerOrder : bool
}.

(** What the route takes from outside this file.  [validated] is the
    outcome of the Joi schema on the body ([None] for [result.error]);
    [pins] are the values that successive calls of [createGamePin]
    return; [phrase] is what [createGamePassphrase] returns; [newId] is
    the id the new document gets; [saveFails] is whether [save] throws.
    [token] is [req.token.data], which [ownerAuth] has set. *)
Record Call : Type := mkCall {
  token : TokenData;
  body : RawBody;
  validated : option GameSettings;
  pins : list string;
  phrase : string;
  newId : ObjectId;
  saveFails : bool
}.

Record Response : Type := mkResponse {
  code : Z;
  ok : bool;
  message : Message;
  extra : option string;
  data : option RawBody;
  game : option string
}.

Definition Invalid (b : RawBody) : Response :=
  mkResponse 400 false (Shared BAD_REQUEST)
             (Some "Invalid parameters for game creation") (Some b) None.

Definition Created (p : string) : Response :=
  mkResponse 201 true (Literal "Successfully created new game.") None None
             (Some p).

Definition Failed : Response :=
  mkResponse 500 false (Shared INTERNAL_SERVER_ERROR) None None None.

(** [Lobby.find({pin})]: every document with that pin. *)
Definition find (db : Repo.collection) (p : string) : list Lobby :=
  List.filter (fun l => String.eqb (pin l) p) db.

(** The loop [do { gamePin = createGamePin(); existingGame = await
    Lobby.find({pin: gamePin}) } while (existingGame.length !== 0)]
    over the pins the generator hands out.  [None]: every pin of the
    list was taken, the loop is still running. *)
Fixpoint pickPin (db : Repo.collection) (candidates : list string)
  : option string :=
  match candidates with
  | [] => None
  | gamePin :: later =>
      if negb (length (find db gamePin) =? 0)%nat then pickPin db later
      else Some gamePin
  end.

(** [new Lobby({...})].  The settings that no route of this file reads
    back ([roundTimeout], [shortGameDeck], [freeForAll],
    [randomPlayerOrder]) are stored with the document and are not fields
    of [Lobby].  The owner enters the lobby in a confirmed, registered
    slot; the slot has no [socketId] (the literal sets [sockedId]).
    Modelled from the spec: the schema of models/game, which supplies
    the status of a new document, is not part of the sources; the data
    model makes WAITING the initial status. *)
Definition newGame (c : Call) (s : GameSettings) (gamePin : string) : Lobby :=
  mkLobby (newId c) gamePin
          (if set_with2FA s then Some (phrase c) else None)
          (set_with2FA s) (set_maxPlayers s) WAITING
          (token_id (token c))
          [mkPlayer (token_name (token c)) None true true].

(** [newGame.save()]: the document is added at the end. *)
Definition save (db : Repo.collection) (l : Lobby) : Repo.collection :=
  (db ++ [l])%list.

(** POST /.  [None] when the pin loop has not come to an end within
    [pins]. *)
Definition createLobby (db : Repo.collection) (c : Call)
  : option (Response * Repo.collection) :=
  match validated c with
  | None => Some (Invalid (body c), db)
  | Some settings =>
      match pickPin db (pins c) with
      | None => None
      | Some gamePin =>
          if saveFails c then Some (Failed, db)
          else Some (Created gamePin, save db (newGame c settings gamePin))
      end
  end.

End Create.

(** ** Sequences of requests *)

(** The collection after a run of join requests, served one after the
    other. *)
Definition joinAll (db : Repo.collection) (reqs : list Request)
  : Repo.collection :=
  fold_left (fun d r => stored (joinLobby d r)) reqs db.




(** [l'] is [l] but for its players, and its confirmed slots are those
    of [l], in the same order. *)
Definition sameButPending (l l' : Lobby) : Prop :=
  _id l' = _id l /\ pin l' = pin l /\ passphrase l' = passphrase l
  /\ with2FA l' = with2FA l /\ maxPlayers l' = maxPlayers l
  /\ status l' = status l /\ owner l' = owner l
  /\ List.filter confirmed (players l') = List.filter confirmed (players l).

(** ** A lobby with a capacity that is not whole *)

Module Fractional.

(** What the create route stores for [{maxPlayers: 2.5}], after one
    anonymous join that has not been confirmed. *)
Definition lobby : Lobby :=
  mkLobby 6%N "250250" None false (5 # 2)%Q WAITING 70%N
          [Sample.ann; Sample.cat_pending].

Definition db : Repo.collection := [lobby].

End Fractional.

(** ** A sample creation *)

Module Fresh.

Definition settings : Create.GameSettings :=
  Create.mkGameSettings 4%Q true 120 false true false.

(** The account "zoe" creates a lobby with 2FA while the generator first
    hands out two pins that are taken in [Sample.db]. *)
Definition call : Create.Call :=
  Create.mkCall (mkTokenData 80%N "zoe")
                [("maxPlayers", Js.Num 4); ("roundTimeout", Js.Num 120);
                 ("with2FA", Js.Bool true)]
                (Some settings)
                ["482913"; "100200"; "777888"; "999000"]
                "K3PX" 5%N false.

Definition lobby : Lobby := Create.newGame call settings "777888".

Definition db : Repo.collection := (Sample.db ++ [lobby])%list.

End Fresh.

(** ** Arrays *)

Section Arrays.
Context {A : Type}.
Implicit Types (f : A -> bool) (l : list A) (v : A).

Lemma findIndex_range f l :
  -1 <= Js.findIndex f l < Z.of_nat (length l).
Proof.
  induction l as [|x xs IH]; simpl; [lia|].
  destruct (f x); [lia|].
  destruct (Js.findIndex f xs <? 0) eqn:E; lia.
Qed.

Lemma findIndex_none f l :
  Js.findIndex f l < 0 -> forall x, In x l -> f x = false.
Proof.
  induction l as [|y ys IH]; simpl; [tauto|].
  destruct (f y) eqn:Fy; [lia|].
  destruct (Js.findIndex f ys <? 0) eqn:E.
  - intros _ x [<-|Hx]; [exact Fy|]. apply IH; [lia | exact Hx].
  - pose proof (findIndex_range f ys). lia.
Qed.

(** The index found is the first one whose element satisfies [f]. *)
Lemma findIndex_first f l :
  0 <= Js.findIndex f l ->
  exists x, l !! Z.to_nat (Js.findIndex f l) = Some x /\ f x = true /\
            forall j y, (j < Z.to_nat (Js.findIndex f l))%nat ->
                        l !! j = Some y -> f y = false.
Proof.
  induction l as [|y ys IH]; simpl; [lia|].
  destruct (f y) eqn:Fy.
  - intros _. exists y. repeat split; [exact Fy|]. intros j z Hj. lia.
  - destruct (Js.findIndex f ys <? 0) eqn:E; [lia|].
    intros _. apply Z.ltb_ge in E. destruct (IH E) as (x & Hx & Fx & Hmin).
    exists x. replace (Z.to_nat (Js.findIndex f ys + 1))
      with (S (Z.to_nat (Js.findIndex f ys))) by lia.
    repeat split; [exact Hx | exact Fx |].
    intros [|j] z Hj Hz; simpl in Hz.
    + congruence.
    + apply (Hmin j z); [lia | exact Hz].
Qed.

Lemma filter_length_le f l :
  (length (List.filter f l) <= length l)%nat.
Proof.
  induction l as [|x xs IH]; simpl; [lia|]. destruct (f x); simpl; lia.
Qed.

Lemma filter_length_all f l :
  length (List.filter f l) = length l -> forall x, In x l -> f x = true.
Proof.
  induction l as [|y ys IH]; simpl; [tauto|].
  pose proof (filter_length_le f ys).
  destruct (f y) eqn:Fy; simpl; intros Hlen; [|lia].
  intros x [<-|Hx]; [exact Fy|]. apply IH; [lia | exact Hx].
Qed.

(** When fewer elements satisfy [f] than the array holds, the search for
    the first one that does not is successful. *)
Lemma findIndex_negb_found f l :
  length (List.filter f l) <> length l ->
  0 <= Js.findIndex (fun x => negb (f x)) l.
Proof.
  intros Hne.
  destruct (Z_lt_ge_dec (Js.findIndex (fun x => negb (f x)) l) 0) as [Hlt|Hge];
    [|lia].
  exfalso. apply Hne. clear Hne.
  pose proof (findIndex_none _ _ Hlt) as Hall. clear Hlt.
  induction l as [|y ys IH]; simpl; [reflexivity|].
  assert (f y = true) as ->.
  { specialize (Hall y (or_introl eq_refl)). now destruct (f y). }
  simpl. f_equal. apply IH. intros x Hx. apply Hall. now right.
Qed.

(** Overwriting an element that fails [f] by another that fails [f]
    leaves the elements that satisfy [f] as they were. *)
Lemma filter_insert_false f l (i : nat) x v :
  l !! i = Some x -> f x = false -> f v = false ->
  List.filter f (<[i := v]> l) = List.filter f l.
Proof.
  revert i. induction l as [|y ys IH]; intros [|i]; simpl; try discriminate.
  - intros [= ->] -> ->. reflexivity.
  - intros Hi Fx Fv. rewrite (IH i Hi Fx Fv). reflexivity.
Qed.

Lemma filter_push_false f l v :
  f v = false -> List.filter f (Js.push l v) = List.filter f l.
Proof.
  intros Fv. unfold Js.push. rewrite List.filter_app. simpl. rewrite Fv.
  apply app_nil_r.
Qed.

End Arrays.

(** ** Numbers *)

Lemma number_eq_true a b : Js.number_eq a b = true <-> (a == b)%Q.
Proof. apply Qeq_bool_iff. Qed.

Lemma number_eq_false a b : Js.number_eq a b = false <-> ~ (a == b)%Q.
Proof.
  rewrite <- number_eq_true. destruct (Js.number_eq a b); split; congruence.
Qed.

Lemma of_length_eq m n : (Js.of_length m == Js.of_length n)%Q <-> m = n.
Proof.
  unfold Js.of_length. rewrite inject_Z_injective. lia.
Qed.

Lemma of_length_le m n :
  (Js.of_length m <= Js.of_length n)%Q <-> (m <= n)%nat.
Proof. unfold Js.of_length. rewrite <- Zle_Qle. lia. Qed.

(** Below a whole number and not at it, a length has room for one
    more. *)
Lemma of_length_succ n x :
  wholeNumber x -> (Js.of_length n <= x)%Q -> ~ (Js.of_length n == x)%Q ->
  (Js.of_length (S n) <= x)%Q.
Proof.
  intros [z Hz]. unfold Js.of_length. rewrite Hz, <- !Zle_Qle.
  rewrite inject_Z_injective. lia.
Qed.

(** ** The collection *)

Lemma findOne_some db p l :
  Repo.findOne db p = Some l -> In l db /\ pin l = p.
Proof.
  unfold Repo.findOne. intros H. apply List.find_some in H as [Hin Heq].
  split; [exact Hin | now apply String.eqb_eq].
Qed.

Lemma findOne_none db p :
  ~ In p (map pin db) -> Repo.findOne db p = None.
Proof.
  induction db as [|l rest IH]; simpl; [reflexivity|].
  intros Hnot. destruct (String.eqb (pin l) p) eqn:E.
  - apply String.eqb_eq in E. tauto.
  - apply IH. tauto.
Qed.

(** With one document per pin, the pin is gone after [deleteOne]. *)
Lemma findOne_deleteOne db p :
  List.NoDup (map pin db) -> Repo.findOne (Repo.deleteOne db p) p = None.
Proof.
  induction db as [|l rest IH]; simpl; [reflexivity|].
  intros Hnd. apply List.NoDup_cons_iff in Hnd as [Hfresh Hnd].
  destruct (String.eqb (pin l) p) eqn:E.
  - apply String.eqb_eq in E. subst p. now apply findOne_none.
  - simpl. rewrite E. now apply IH.
Qed.

(** Documents under another pin are not touched by [deleteOne]. *)
Lemma findOne_deleteOne_other db p q :
  q <> p -> Repo.findOne (Repo.deleteOne db p) q = Repo.findOne db q.
Proof.
  intros Hne. induction db as [|l rest IH]; simpl; [reflexivity|].
  destruct (String.eqb (pin l) p) eqn:E; simpl.
  - apply String.eqb_eq in E.
    destruct (String.eqb (pin l) q) eqn:E'; [|reflexivity].
    apply String.eqb_eq in E'. congruence.
  - now rewrite IH.
Qed.

(** With ids unique, the document read by pin is the one that
    [findOneAndUpdate] rewrites, and it is read back with the new array. *)
Lemma findOne_findOneAndUpdate db p l ps :
  List.NoDup (map _id db) ->
  Repo.findOne db p = Some l ->
  Repo.findOne (Repo.findOneAndUpdate db (_id l) ps) p
  = Some (set_players l ps).
Proof.
  induction db as [|d rest IH]; simpl; [discriminate|].
  intros Hnd Hfind. apply List.NoDup_cons_iff in Hnd as [Hfresh Hnd].
  destruct (String.eqb (pin d) p) eqn:E.
  - injection Hfind as ->. rewrite N.eqb_refl. simpl. now rewrite E.
  - destruct (N.eqb (_id d) (_id l)) eqn:Eid.
    + apply N.eqb_eq in Eid. exfalso. apply Hfresh. rewrite Eid.
      apply in_map. now apply findOne_some in Hfind.
    + simpl. rewrite E. now apply IH.
Qed.

(** ** Joining: the path to acceptance *)

Lemma resolveIdentity_rejects lobby req r :
  resolveIdentity lobby req = inl r -> res_code r = 400.
Proof.
  unfold resolveIdentity. intros H.
  repeat match type of H with
         | context [match ?x with _ => _ end] => destruct x
         end; inversion H; reflexivity.
Qed.

(** An accepted join has passed every gate, answered from the last
    return site and issued exactly one write: the replacement of the
    players array of the lobby it read. *)
Lemma joinLobby_accepted db req :
  res_code (response (joinLobby db req)) = 200 ->
  exists lobby n reg,
    Repo.findOne db (req_pin req) = Some lobby
    /\ Joi.passphraseValidator (body_passphrase (req_body req)) = true
    /\ lobbyClosed lobby = false
    /\ with2FA lobby
       && negb (Js.strict_eq (Js.of_option (passphrase lobby))
                             (body_passphrase (req_body req))) = false
    /\ resolveIdentity lobby req = inr (n, reg)
    /\ joinLobby db req =
       mkOutcome (Joined reg (AccessCredential n (req_pin req))
                         (RefreshCredential n (req_pin req)))
                 (Repo.findOneAndUpdate db (_id lobby)
                    (placePlayer lobby (mkPlayer n None false reg)))
                 [UpdatePlayers (_id lobby)
                    (placePlayer lobby (mkPlayer n None false reg))] [].
Proof.
  unfold joinLobby.
  destruct (Repo.findOne db (req_pin req)) as [lobby|]; [|discriminate].
  destruct (Joi.passphraseValidator _) eqn:Hv; [|discriminate]. simpl.
  destruct (lobbyClosed lobby) eqn:Hc; [discriminate|].
  destruct (with2FA lobby && _) eqn:Hp; [discriminate|].
  destruct (resolveIdentity lobby req) as [r|[n reg]] eqn:Hi.
  - simpl. intros H. apply resolveIdentity_rejects in Hi. lia.
  - intros _. exists lobby, n, reg. repeat split; assumption.
Qed.

(** Whoever is placed by an accepted join is registered exactly when the
    request carried a token. *)
Lemma resolveIdentity_registered lobby req n reg :
  resolveIdentity lobby req = inr (n, reg) ->
  reg = match req_token req with Some _ => true | None => false end.
Proof.
  unfold resolveIdentity. intros H.
  repeat match type of H with
         | context [match ?x with _ => _ end] => destruct x
         end; inversion H; reflexivity.
Qed.

(** ** Joining with an account *)

Lemma find_registered lobby n :
  (exists p, List.find (fun p => String.eqb (name p) n)
                       (List.filter registered (players lobby)) = Some p)
  <-> holdsRegistered lobby n.
Proof.
  unfold holdsRegistered. split.
  - intros [p Hp]. apply List.find_some in Hp as [Hin Hn].
    apply List.filter_In in Hin as [Hin Hr]. apply String.eqb_eq in Hn.
    now exists p.
  - intros (p & Hin & Hr & Hn).
    destruct (List.find _ _) as [q|] eqn:E; [now exists q|].
    exfalso. apply List.find_none with (x := p) in E.
    + subst n. now rewrite String.eqb_refl in E.
    + apply List.filter_In. now split.
Qed.

(** With a token, the identity step either stops at the duplicate check
    or settles on the account name. *)
Lemma resolveIdentity_account lobby req t :
  req_token req = Some t ->
  (resolveIdentity lobby req = inl AlreadyJoined
   /\ holdsRegistered lobby (token_name t))
  \/ (resolveIdentity lobby req = inr (token_name t, true)
      /\ ~ holdsRegistered lobby (token_name t)).
Proof.
  intros Ht. unfold resolveIdentity. rewrite Ht.
  destruct (List.find _ _) as [q|] eqn:E.
  - left. split; [reflexivity|]. apply find_registered. now exists q.
  - right. split; [reflexivity|]. intros H. apply find_registered in H as [q H].
    congruence.
Qed.

(** C1, the claim as the specification words it, at a lobby where the
    account name is held by a registered slot that was never confirmed:
    the join is rejected as a duplicate although no slot that is both
    registered and confirmed holds the name. *)
Lemma join_duplicate_ignores_confirmation :
  ~ (response (joinLobby Sample.db
                 (Sample.account "482913" 71%N "bob" Js.Undefined))
     = AlreadyJoined
     <-> holdsRegisteredConfirmed Sample.open_lobby "bob").
Proof.
  intros [Hreject _]. specialize (Hreject eq_refl).
  destruct Hreject as (p & Hin & Hr & Hc & Hn). simpl in Hin.
  destruct Hin as [<-|[<-|[]]]; discriminate.
Qed.

(** C1 (amended): for a join request that presents a registered identity
    against an existing lobby, the answer is AlreadyJoined exactly when
    the request has passed the passphrase shape check, the capacity and
    status gate and the passphrase comparison, and the account name
    occupies a registered slot of the lobby, confirmed or not.  A name
    held by unregistered slots only never triggers the rejection. *)
Theorem join_already_joined_iff db req lobby t :
  Repo.findOne db (req_pin req) = Some lobby ->
  req_token req = Some t ->
  (response (joinLobby db req) = AlreadyJoined
   <-> Joi.passphraseValidator (body_passphrase (req_body req)) = true
       /\ lobbyClosed lobby = false
       /\ passphraseMismatch lobby req = false
       /\ holdsRegistered lobby (token_name t)).
Proof.
  intros Hfind Ht. unfold joinLobby, passphraseMismatch. rewrite Hfind.
  destruct (Joi.passphraseValidator _); simpl;
    [|split; [discriminate | intros [? _]; discriminate]].
  destruct (lobbyClosed lobby); simpl;
    [split; [discriminate | intros (_ & ? & _); discriminate]|].
  destruct (with2FA lobby && _); simpl;
    [split; [discriminate | intros (_ & _ & ? & _); discriminate]|].
  destruct (resolveIdentity_account lobby req t Ht) as [[-> Hh]|[-> Hh]];
    simpl.
  - split; [now intros _ | reflexivity].
  - split; [discriminate | intros (_ & _ & _ & ?); contradiction].
Qed.

Lemma join_already_joined_iff_witness :
  response (joinLobby Sample.db
              (Sample.account "482913" 71%N "bob" Js.Undefined))
  = AlreadyJoined
  <-> Joi.passphraseValidator Js.Undefined = true
      /\ lobbyClosed Sample.open_lobby = false
      /\ passphraseMismatch Sample.open_lobby
           (Sample.account "482913" 71%N "bob" Js.Undefined) = false
      /\ holdsRegistered Sample.open_lobby "bob".
Proof.
  apply (join_already_joined_iff Sample.db
           (Sample.account "482913" 71%N "bob" Js.Undefined)
           Sample.open_lobby (mkTokenData 71%N "bob"));
    reflexivity.
Defined.

(** ** The order of the admission checks *)

Lemma GameStatus_eqb_eq a b : GameStatus_eqb a b = true <-> a = b.
Proof. destruct a, b; simpl; split; congruence. Qed.

(** The gate lets a lobby through when it is waiting and its confirmed
    count differs from [maxPlayers]. *)
Lemma lobbyClosed_false l :
  lobbyClosed l = false
  <-> status l = WAITING
      /\ ~ (Js.of_length (confirmedCount l) == maxPlayers l)%Q.
Proof.
  unfold lobbyClosed, confirmedCount.
  rewrite orb_false_iff, negb_false_iff, number_eq_false, GameStatus_eqb_eq.
  tauto.
Qed.

(** Under the capacity invariant the gate is the one of the data model:
    waiting, and fewer confirmed players than [maxPlayers]. *)
Lemma lobbyClosed_false_lt l :
  (Js.of_length (confirmedCount l) <= maxPlayers l)%Q ->
  lobbyClosed l = false
  <-> status l = WAITING
      /\ (Js.of_length (confirmedCount l) < maxPlayers l)%Q.
Proof.
  intros Hle. rewrite lobbyClosed_false.
  split; intros [Hs Hc]; (split; [exact Hs|]).
  - apply Qle_lteq in Hle as [Hlt|Heq]; [exact Hlt | contradiction].
  - now apply Qlt_not_eq.
Qed.

(** C2, the claim as the specification words it, at a full lobby and a
    request whose passphrase has three characters: the answer is
    BadRequest, not LobbyFull. *)
Lemma join_malformed_passphrase_on_full_lobby :
  let req := Sample.anonymous "100200" (Js.Str "abc") (Js.Str "eve") in
  Repo.findOne Sample.db (req_pin req) = Some Sample.full_lobby
  /\ status Sample.full_lobby = WAITING
  /\ (Js.of_length (confirmedCount Sample.full_lobby)
      == maxPlayers Sample.full_lobby)%Q
  /\ response (joinLobby Sample.db req) = BadRequest (req_body req)
  /\ response (joinLobby Sample.db req) <> LobbyFull.
Proof. repeat split. discriminate. Qed.

(** C2 (amended): against an existing lobby that respects the capacity
    invariant, the join route answers with the error of the first failing
    check in the fixed order (0) shape of the passphrase field, else
    BadRequest; (1) status WAITING and confirmed count below maxPlayers,
    else LobbyFull; (2) passphrase equality under 2FA, else
    InvalidPassphrase; (3) no registered slot under the account name,
    else AlreadyJoined; (4) shape of the anonymous name, else BadRequest,
    then name free, else NameTaken.  In particular a malformed passphrase
    against a full lobby is answered with BadRequest.  A request that
    fails no check is accepted. *)
Theorem join_first_failing_check db req lobby :
  Repo.findOne db (req_pin req) = Some lobby ->
  (Js.of_length (confirmedCount lobby) <= maxPlayers lobby)%Q ->
  let r := response (joinLobby db req) in
  let body := req_body req in
  (Joi.passphraseValidator (body_passphrase body) = false ->
   r = BadRequest body)
  /\ (Joi.passphraseValidator (body_passphrase body) = true ->
      (~ (status lobby = WAITING
          /\ (Js.of_length (confirmedCount lobby) < maxPlayers lobby)%Q) ->
       r = LobbyFull)
      /\ (status lobby = WAITING
          /\ (Js.of_length (confirmedCount lobby) < maxPlayers lobby)%Q ->
          (passphraseMismatch lobby req = true -> r = InvalidPassphrase)
          /\ (passphraseMismatch lobby req = false ->
              (forall t, req_token req = Some t ->
                 (holdsRegistered lobby (token_name t) -> r = AlreadyJoined)
                 /\ (~ holdsRegistered lobby (token_name t) ->
                     res_code r = 200))
              /\ (req_token req = None ->
                  (Joi.nameValidator (body_name body) = false ->
                   r = BadRequest body)
                  /\ (Joi.nameValidator (body_name body) = true ->
                      (checkIfNameFree lobby (body_name body) = false ->
                       r = NameTaken)
                      /\ (checkIfNameFree lobby (body_name body) = true ->
                          res_code r = 200)))))).
Proof.
  intros Hfind Hinv r body. subst r body. unfold joinLobby. rewrite Hfind.
  split; [intros ->; reflexivity|]. intros ->. simpl.
  rewrite <- (lobbyClosed_false_lt lobby Hinv).
  split.
  { intros Hc. apply not_false_is_true in Hc. now rewrite Hc. }
  intros ->. fold (passphraseMismatch lobby req).
  split; [intros ->; reflexivity|]. intros ->.
  split.
  - intros t Ht.
    destruct (resolveIdentity_account lobby req t Ht) as [[-> Hh]|[-> Hh]];
      simpl; split; try reflexivity; intros ?; contradiction.
  - intros Ht. unfold resolveIdentity. rewrite Ht.
    split; [intros ->; reflexivity|]. intros Hv. rewrite Hv. simpl.
    split; [intros ->; reflexivity|]. intros ->. simpl.
    destruct (body_name (req_body req)); try discriminate Hv. reflexivity.
Qed.

Lemma join_first_failing_check_witness :
  let req := Sample.anonymous "555666" (Js.Str "Q7ZK") (Js.Str "ann") in
  response (joinLobby Sample.db req) = NameTaken.
Proof.
  intros req.
  apply (join_first_failing_check Sample.db req Sample.stale_lobby);
    solve [reflexivity | vm_compute; repeat split; congruence].
Defined.

(** ** Slot placement *)

(** Every slot allocated and the gate passed: the search finds the first
    slot that is not confirmed, and that slot is the one overwritten. *)
Lemma placePlayer_overwrite lobby player :
  ~ (Js.of_length (confirmedCount lobby) == maxPlayers lobby)%Q ->
  (Js.of_length (length (players lobby)) == maxPlayers lobby)%Q ->
  exists (i : nat) old,
    Js.findIndex (fun p => negb (confirmed p)) (players lobby) = Z.of_nat i
    /\ players lobby !! i = Some old
    /\ confirmed old = false
    /\ (forall j y, (j < i)%nat -> players lobby !! j = Some y ->
                    confirmed y = true)
    /\ placePlayer lobby player = <[i := player]> (players lobby).
Proof.
  intros Hgate Hfull. unfold confirmedCount in Hgate.
  assert (0 <= Js.findIndex (fun p => negb (confirmed p)) (players lobby))
    as Hfound.
  { apply findIndex_negb_found. intros Heq. apply Hgate.
    now rewrite Heq. }
  destruct (findIndex_first _ _ Hfound) as (old & Hold & Hc & Hmin).
  exists (Z.to_nat (Js.findIndex (fun p => negb (confirmed p))
                                 (players lobby))), old.
  split; [lia|]. split; [exact Hold|].
  split; [now apply negb_true_iff in Hc|]. split.
  - intros j y Hj Hy. specialize (Hmin j y Hj Hy).
    now apply negb_false_iff in Hmin.
  - unfold placePlayer, Js.assign. apply number_eq_true in Hfull.
    rewrite Hfull. apply Z.ltb_ge in Hfound. now rewrite Hfound.
Qed.

Lemma placePlayer_append lobby player :
  ~ (Js.of_length (length (players lobby)) == maxPlayers lobby)%Q ->
  placePlayer lobby player = (players lobby ++ [player])%list.
Proof.
  intros Hne. unfold placePlayer, Js.push. apply number_eq_false in Hne.
  now rewrite Hne.
Qed.

(** Placing an unconfirmed player leaves the confirmed slots as they
    were, in number and in order. *)
Lemma placePlayer_confirmed lobby player :
  ~ (Js.of_length (confirmedCount lobby) == maxPlayers lobby)%Q ->
  confirmed player = false ->
  List.filter confirmed (placePlayer lobby player)
  = List.filter confirmed (players lobby).
Proof.
  intros Hgate Hp.
  destruct (Qeq_dec (Js.of_length (length (players lobby))) (maxPlayers lobby))
    as [Hfull|Hroom].
  - destruct (placePlayer_overwrite lobby player Hgate Hfull)
      as (i & old & _ & Hold & Hc & _ & ->).
    now apply filter_insert_false with (x := old).
  - rewrite (placePlayer_append lobby player Hroom).
    now apply (filter_push_false confirmed).
Qed.

(** When [maxPlayers] is whole, placement never allocates more than
    [maxPlayers] slots. *)
Lemma placePlayer_length lobby player :
  wholeNumber (maxPlayers lobby) ->
  ~ (Js.of_length (confirmedCount lobby) == maxPlayers lobby)%Q ->
  (Js.of_length (length (players lobby)) <= maxPlayers lobby)%Q ->
  (Js.of_length (length (placePlayer lobby player)) <= maxPlayers lobby)%Q.
Proof.
  intros Hwhole Hgate Hle.
  destruct (Qeq_dec (Js.of_length (length (players lobby))) (maxPlayers lobby))
    as [Hfull|Hroom].
  - destruct (placePlayer_overwrite lobby player Hgate Hfull)
      as (i & old & _ & _ & _ & _ & ->).
    now rewrite length_insert.
  - rewrite (placePlayer_append lobby player Hroom), length_app. simpl.
    rewrite Nat.add_1_r. now apply of_length_succ.
Qed.

(** Past the gate, the player handed to the placement is a slot of the
    array it returns. *)
Lemma placePlayer_In lobby player :
  ~ (Js.of_length (confirmedCount lobby) == maxPlayers lobby)%Q ->
  In player (placePlayer lobby player).
Proof.
  intros Hgate.
  destruct (Qeq_dec (Js.of_length (length (players lobby))) (maxPlayers lobby))
    as [Hfull|Hroom].
  - destruct (placePlayer_overwrite lobby player Hgate Hfull)
      as (i & old & _ & Hold & _ & _ & ->).
    apply list_elem_of_In, list_elem_of_lookup. exists i.
    apply list_lookup_insert_eq. now apply lookup_lt_Some in Hold.
  - rewrite (placePlayer_append _ _ Hroom). apply in_or_app. right. now left.
Qed.

(** ** The capacity invariant *)

(** The player placed by the identity step is the joiner of the
    request. *)
Lemma resolveIdentity_joiner lobby req n reg :
  resolveIdentity lobby req = inr (n, reg) ->
  joiner req = Some (mkPlayer n None false reg).
Proof.
  unfold resolveIdentity, joiner. intros H.
  repeat match type of H with
         | context [match ?x with _ => _ end] => destruct x
         end; inversion H; reflexivity.
Qed.

(** C3, the claim as the specification words it, at two inputs.  At a
    lobby whose game has started and a request whose passphrase has
    seven characters, the join is rejected, but with BadRequest rather
    than LobbyFull.  At a waiting lobby of capacity 2.5 with two slots,
    one of them confirmed, both bounds hold and the join of an account
    is accepted; the lobby it stores has three slots and is out of
    bounds. *)
Lemma join_bounds_counterexamples :
  (let req := Sample.account "300400" 71%N "eve" (Js.Str "toolong") in
   Repo.findOne Sample.db (req_pin req) = Some Sample.playing_lobby
   /\ slotsBounded Sample.playing_lobby
   /\ status Sample.playing_lobby <> WAITING
   /\ response (joinLobby Sample.db req) = BadRequest (req_body req)
   /\ response (joinLobby Sample.db req) <> LobbyFull)
  /\ (let req := Sample.account "250250" 72%N "eve" Js.Undefined in
      Repo.findOne Fractional.db (req_pin req) = Some Fractional.lobby
      /\ slotsBounded Fractional.lobby
      /\ res_code (response (joinLobby Fractional.db req)) = 200
      /\ exists lobby',
           Repo.findOne (stored (joinLobby Fractional.db req)) (req_pin req)
           = Some lobby'
           /\ length (players lobby') = 3%nat
           /\ ~ slotsBounded lobby').
Proof.
  split.
  - repeat split; try discriminate.
  - split; [reflexivity|]. split; [split; discriminate|].
    split; [reflexivity|]. eexists. split; [reflexivity|].
    split; [reflexivity|]. intros [_ Hlen]. now apply Hlen.
Qed.

(** C3 (amended): for a lobby within the capacity bounds (confirmed count
    and allocated slots both at most maxPlayers), a join against it when
    its confirmed count equals maxPlayers or its status is not WAITING is
    rejected without a write, with LobbyFull when the passphrase field
    passes the shape check and with BadRequest when it does not.  The
    lobby stored by an accepted join holds the joiner of the request in
    an unconfirmed slot, has the confirmed count it had, and, when
    maxPlayers is a whole number, is again within both bounds. *)
Theorem join_preserves_capacity db req lobby :
  List.NoDup (map _id db) ->
  Repo.findOne db (req_pin req) = Some lobby ->
  slotsBounded lobby ->
  ((Js.of_length (confirmedCount lobby) == maxPlayers lobby)%Q
   \/ status lobby <> WAITING ->
   joinLobby db req
   = reply (if Joi.passphraseValidator (body_passphrase (req_body req))
            then LobbyFull else BadRequest (req_body req)) db)
  /\ (res_code (response (joinLobby db req)) = 200 ->
      exists player,
        let lobby' := set_players lobby (placePlayer lobby player) in
        joiner req = Some player
        /\ confirmed player = false
        /\ In player (players lobby')
        /\ Repo.findOne (stored (joinLobby db req)) (req_pin req)
           = Some lobby'
        /\ confirmedCount lobby' = confirmedCount lobby
        /\ (wholeNumber (maxPlayers lobby) -> slotsBounded lobby')).
Proof.
  intros Hids Hfind [Hconf Hlen]. split.
  - intros Hclosed. unfold joinLobby. rewrite Hfind.
    destruct (Joi.passphraseValidator _); simpl; [|reflexivity].
    destruct (lobbyClosed lobby) eqn:Hc; [reflexivity|].
    apply lobbyClosed_false in Hc. tauto.
  - intros Hok.
    destruct (joinLobby_accepted db req Hok)
      as (l & n & reg & Hl & _ & Hc & _ & Hi & ->).
    rewrite Hfind in Hl. injection Hl as <-.
    apply lobbyClosed_false in Hc as [_ Hgate].
    exists (mkPlayer n None false reg). simpl.
    split; [now apply resolveIdentity_joiner with lobby|].
    split; [reflexivity|].
    split; [now apply placePlayer_In|].
    split; [now apply findOne_findOneAndUpdate|].
    assert (confirmedCount
              (set_players lobby
                 (placePlayer lobby (mkPlayer n None false reg)))
            = confirmedCount lobby) as Hsame.
    { unfold confirmedCount. simpl.
      now rewrite placePlayer_confirmed. }
    split; [exact Hsame|]. intros Hwhole. split.
    + rewrite Hsame. exact Hconf.
    + simpl. now apply placePlayer_length.
Qed.

Lemma join_preserves_capacity_witness :
  let req := Sample.anonymous "555666" (Js.Str "Q7ZK") (Js.Str "eve") in
  exists player,
    let lobby' := set_players Sample.stale_lobby
                    (placePlayer Sample.stale_lobby player) in
    joiner req = Some player
    /\ confirmed player = false
    /\ In player (players lobby')
    /\ Repo.findOne (stored (joinLobby Sample.db req)) (req_pin req)
       = Some lobby'
    /\ confirmedCount lobby' = confirmedCount Sample.stale_lobby
    /\ slotsBounded lobby'.
Proof.
  intros req.
  assert (List.NoDup (map _id Sample.db)) as Hids.
  { simpl. repeat constructor; simpl; intuition discriminate. }
  assert (slotsBounded Sample.stale_lobby) as Hinv.
  { split; vm_compute; discriminate. }
  assert (wholeNumber (maxPlayers Sample.stale_lobby)) as Hwhole.
  { exists 3. reflexivity. }
  destruct (proj2 (join_preserves_capacity Sample.db req Sample.stale_lobby
                     Hids eq_refl Hinv) eq_refl)
    as (player & Hj & Hu & Hin & Hf & Hc & Hb).
  exists player. repeat (split; [assumption|]). now apply Hb.
Defined.

(** ** What an accepted join writes *)

(** C4: an accepted join writes one players array.  The new slot is
    the joiner of the request: under the account name and registered
    when the request carries a token, under the name of the body and
    unregistered when it does not, unconfirmed and without socket in
    both cases.  When every slot of the lobby it read is allocated, the
    array written is the old one with the first unconfirmed slot
    overwritten by the new slot: same length, the new slot at that
    index, every other index as before.  Otherwise it is the old array
    with the new slot appended: one longer, the new slot last, every
    old index as before. *)
Theorem join_changes_one_slot db req :
  res_code (response (joinLobby db req)) = 200 ->
  exists lobby player ps',
    Repo.findOne db (req_pin req) = Some lobby
    /\ joiner req = Some player
    /\ (forall t, req_token req = Some t ->
                  name player = token_name t /\ registered player = true)
    /\ (req_token req = None ->
        body_name (req_body req) = Js.Str (name player)
        /\ registered player = false)
    /\ socketId player = None
    /\ confirmed player = false
    /\ writes (joinLobby db req) = [UpdatePlayers (_id lobby) ps']
    /\ stored (joinLobby db req) = Repo.findOneAndUpdate db (_id lobby) ps'
    /\ ((Js.of_length (length (players lobby)) == maxPlayers lobby)%Q ->
        exists (i : nat) old,
          players lobby !! i = Some old
          /\ confirmed old = false
          /\ (forall j y, (j < i)%nat -> players lobby !! j = Some y ->
                          confirmed y = true)
          /\ ps' = <[i := player]> (players lobby)
          /\ length ps' = length (players lobby)
          /\ ps' !! i = Some player
          /\ forall j, j <> i -> ps' !! j = players lobby !! j)
    /\ (~ (Js.of_length (length (players lobby)) == maxPlayers lobby)%Q ->
        ps' = (players lobby ++ [player])%list
        /\ length ps' = S (length (players lobby))
        /\ ps' !! length (players lobby) = Some player
        /\ forall j, (j < length (players lobby))%nat ->
                     ps' !! j = players lobby !! j).
Proof.
  intros Hok.
  destruct (joinLobby_accepted db req Hok)
    as (lobby & n & reg & Hfind & _ & Hc & _ & Hi & ->).
  apply lobbyClosed_false in Hc as [_ Hgate].
  pose proof (resolveIdentity_joiner lobby req n reg Hi) as Hj.
  exists lobby, (mkPlayer n None false reg),
    (placePlayer lobby (mkPlayer n None false reg)).
  split; [exact Hfind|]. split; [exact Hj|].
  split.
  { intros t Ht. unfold joiner in Hj. rewrite Ht in Hj.
    injection Hj as <- <-. now split. }
  split.
  { intros Ht. unfold joiner in Hj. rewrite Ht in Hj.
    destruct (body_name (req_body req)); try discriminate.
    injection Hj as <- <-. now split. }
  simpl. repeat (split; [reflexivity|]). split.
  - intros Hfull.
    destruct (placePlayer_overwrite lobby (mkPlayer n None false reg)
                Hgate Hfull) as (i & old & _ & Hold & Hu & Hmin & ->).
    exists i, old. repeat (split; [assumption || reflexivity|]).
    split; [apply length_insert|]. split.
    + apply list_lookup_insert_eq. now apply lookup_lt_Some in Hold.
    + intros j Hj'. apply list_lookup_insert_ne. congruence.
  - intros Hroom. rewrite (placePlayer_append _ _ Hroom).
    split; [reflexivity|]. split; [rewrite length_app; simpl; lia|]. split.
    + now apply list_lookup_middle.
    + intros j Hj'. now apply lookup_app_l.
Qed.

Lemma join_changes_one_slot_witness :
  let req := Sample.anonymous "555666" (Js.Str "Q7ZK") (Js.Str "eve") in
  writes (joinLobby Sample.db req)
  = [UpdatePlayers (_id Sample.stale_lobby)
       (<[1%nat := mkPlayer "eve" None false false]>
          (players Sample.stale_lobby))].
Proof.
  intros req.
  destruct (join_changes_one_slot Sample.db req eq_refl)
    as (lobby & player & ps' & Hfind & Hj & _ & _ & _ & _ & Hw & _ & Hfull
        & _).
  injection Hfind as <-. injection Hj as <-.
  assert ((Js.of_length (length (players Sample.stale_lobby))
           == maxPlayers Sample.stale_lobby)%Q) as Hall by reflexivity.
  destruct (Hfull Hall) as (i & old & Hold & Hu & _ & Hps & _).
  destruct i as [|[|[|i]]]; simpl in Hold; try discriminate;
    injection Hold as <-; try discriminate Hu.
  now rewrite Hw, Hps.
Defined.

(** The array written for the sample lobby whose middle slot was
    abandoned: the newcomer takes that slot, the length stays three. *)
Example join_overwrites_abandoned_slot :
  writes (joinLobby Sample.db
            (Sample.anonymous "555666" (Js.Str "Q7ZK") (Js.Str "eve")))
  = [UpdatePlayers 4%N
       [Sample.ann; mkPlayer "eve" None false false; Sample.dan]].
Proof. reflexivity. Qed.

(** ** Rejections do not write *)

(** Whatever the request, the join route either returns through [reply]
    or answers 200. *)
Lemma joinLobby_cases db req :
  (exists r, joinLobby db req = reply r db /\ joinRejection req r)
  \/ res_code (response (joinLobby db req)) = 200.
Proof.
  unfold joinLobby, joinRejection.
  destruct (Repo.findOne db (req_pin req)) as [lobby|]; [|left; eauto].
  destruct (Joi.passphraseValidator _); simpl; [|left; eauto 8].
  destruct (lobbyClosed lobby); [left; eauto 8|].
  destruct (with2FA lobby && _); [left; eauto 8|].
  destruct (resolveIdentity lobby req) as [r|[n reg]] eqn:Hi;
    [|right; reflexivity].
  left. exists r. split; [reflexivity|]. unfold resolveIdentity in Hi.
  repeat match type of Hi with
         | context [match ?x with _ => _ end] => destruct x
         end; inversion Hi; auto 8.
Qed.

(** C5: when the join route rejects (NotFound, BadRequest, LobbyFull,
    InvalidPassphrase, AlreadyJoined or NameTaken, the second covering
    the malformed name as well), it has issued no write and the
    collection is as it was; a write is issued on the accepting path
    only. *)
Theorem join_reject_no_write db req :
  (joinRejection req (response (joinLobby db req)) ->
   writes (joinLobby db req) = [] /\ stored (joinLobby db req) = db)
  /\ (res_code (response (joinLobby db req)) <> 200 ->
      joinRejection req (response (joinLobby db req))
      /\ writes (joinLobby db req) = [] /\ stored (joinLobby db req) = db)
  /\ (writes (joinLobby db req) <> [] ->
      res_code (response (joinLobby db req)) = 200).
Proof.
  destruct (joinLobby_cases db req) as [(r & -> & Hr)|Hok]; simpl.
  - repeat split; try assumption; intros; congruence.
  - split; [|split]; try tauto.
    intros Hrej. exfalso.
    destruct Hrej as [H|[H|[H|[H|[H|H]]]]]; rewrite H in Hok;
      discriminate.
Qed.

Lemma join_reject_no_write_witness :
  let req := Sample.anonymous "100200" Js.Undefined (Js.Str "eve") in
  writes (joinLobby Sample.db req) = []
  /\ stored (joinLobby Sample.db req) = Sample.db.
Proof.
  intros req.
  apply (proj1 (join_reject_no_write Sample.db req)).
  right. right. left. reflexivity.
Defined.

(** ** Credentials in the success response *)

(** C7: the success response of the join route carries the access and
    the refresh credential, minted for the name and the pin, exactly
    when the request came without an account token; with a token it
    carries neither. *)
Theorem join_credentials_iff_anonymous db req :
  res_code (response (joinLobby db req)) = 200 ->
  let r := response (joinLobby db req) in
  (req_token req = None
   <-> exists a b, res_token r = Some a /\ res_refreshToken r = Some b)
  /\ (req_token req = None ->
      exists n, body_name (req_body req) = Js.Str n
                /\ (res_token r, res_refreshToken r)
                   = (Some (fst (createTokens n (req_pin req))),
                      Some (snd (createTokens n (req_pin req)))))
  /\ (req_token req <> None ->
      res_token r = None /\ res_refreshToken r = None).
Proof.
  intros Hok r. subst r.
  destruct (joinLobby_accepted db req Hok)
    as (lobby & n & reg & _ & _ & _ & _ & Hi & ->).
  pose proof (resolveIdentity_registered lobby req n reg Hi) as Hreg.
  simpl. destruct (req_token req) as [t|] eqn:Ht; subst reg; simpl.
  - split; [|split].
    + split; [discriminate | intros (a & b & H & _); discriminate].
    + discriminate.
    + intros _. split; reflexivity.
  - split; [|split].
    + split; [eauto | reflexivity].
    + intros _. exists n. split; [|reflexivity].
      unfold resolveIdentity in Hi. rewrite Ht in Hi.
      destruct (negb (Joi.nameValidator _)); [discriminate|].
      destruct (negb (checkIfNameFree _ _)); [discriminate|].
      destruct (body_name (req_body req)); inversion Hi. reflexivity.
    + congruence.
Qed.

Lemma join_credentials_iff_anonymous_witness :
  let req := Sample.account "482913" 72%N "eve" Js.Undefined in
  res_code (response (joinLobby Sample.db req)) = 200
  /\ res_token (response (joinLobby Sample.db req)) = None
  /\ res_refreshToken (response (joinLobby Sample.db req)) = None.
Proof.
  intros req. split; [reflexivity|].
  apply (join_credentials_iff_anonymous Sample.db req eq_refl).
  discriminate.
Defined.

(** ** The overwrite index *)

(** C9: when an accepted join takes the branch for a lobby whose slots
    are all allocated, the search for the first unconfirmed slot returns
    an index inside the array, never -1, and the slot at that index is
    unconfirmed. *)
Theorem join_overwrite_index_in_bounds db req :
  res_code (response (joinLobby db req)) = 200 ->
  exists lobby,
    Repo.findOne db (req_pin req) = Some lobby
    /\ ~ (Js.of_length (confirmedCount lobby) == maxPlayers lobby)%Q
    /\ ((Js.of_length (length (players lobby)) == maxPlayers lobby)%Q ->
        let i := Js.findIndex (fun p => negb (confirmed p)) (players lobby) in
        0 <= i < Z.of_nat (length (players lobby))
        /\ exists old, players lobby !! Z.to_nat i = Some old
                       /\ confirmed old = false).
Proof.
  intros Hok.
  destruct (joinLobby_accepted db req Hok)
    as (lobby & n & reg & Hfind & _ & Hc & _).
  apply lobbyClosed_false in Hc as [_ Hgate].
  exists lobby. split; [exact Hfind|]. split; [exact Hgate|].
  intros Hfull i. subst i.
  destruct (placePlayer_overwrite lobby (mkPlayer n None false reg)
              Hgate Hfull) as (i & old & -> & Hold & Hu & _).
  rewrite Nat2Z.id. pose proof (lookup_lt_Some _ _ _ Hold).
  split; [lia|]. now exists old.
Qed.

Lemma join_overwrite_index_in_bounds_witness :
  let req := Sample.anonymous "555666" (Js.Str "Q7ZK") (Js.Str "eve") in
  exists lobby,
    Repo.findOne Sample.db (req_pin req) = Some lobby
    /\ ~ (Js.of_length (confirmedCount lobby) == maxPlayers lobby)%Q
    /\ ((Js.of_length (length (players lobby)) == maxPlayers lobby)%Q ->
        let i := Js.findIndex (fun p => negb (confirmed p)) (players lobby) in
        0 <= i < Z.of_nat (length (players lobby))
        /\ exists old, players lobby !! Z.to_nat i = Some old
                       /\ confirmed old = false).
Proof.
  intros req. apply (join_overwrite_index_in_bounds Sample.db req).
  reflexivity.
Defined.

(** ** The passphrase shape check *)

(** C10: against an existing lobby, with or without 2FA, full or not, a
    join whose passphrase field is a string of a length other than four
    is answered with BadRequest, before the capacity and status gate and
    the passphrase comparison, and writes nothing.  A join without the
    field passes the shape check: what comes next is the capacity and
    status gate, and past it the passphrase comparison. *)
Theorem join_passphrase_shape_first db req lobby :
  Repo.findOne db (req_pin req) = Some lobby ->
  (forall s, body_passphrase (req_body req) = Js.Str s ->
             String.length s <> 4%nat ->
             joinLobby db req = reply (BadRequest (req_body req)) db)
  /\ (body_passphrase (req_body req) = Js.Undefined ->
      Joi.passphraseValidator (body_passphrase (req_body req)) = true
      /\ (lobbyClosed lobby = true -> joinLobby db req = reply LobbyFull db)
      /\ (lobbyClosed lobby = false -> passphraseMismatch lobby req = true ->
          joinLobby db req = reply InvalidPassphrase db)
      /\ (lobbyClosed lobby = false -> passphraseMismatch lobby req = false ->
          forall t, req_token req = Some t ->
                    ~ holdsRegistered lobby (token_name t) ->
                    res_code (response (joinLobby db req)) = 200)).
Proof.
  intros Hfind. unfold joinLobby, passphraseMismatch. rewrite Hfind. split.
  - intros s -> Hlen. simpl. apply Nat.eqb_neq in Hlen. now rewrite Hlen.
  - intros ->. simpl. split; [reflexivity|].
    split; [intros ->; reflexivity|].
    split; [intros -> ->; reflexivity|].
    intros -> -> t Ht Hfree.
    destruct (resolveIdentity_account lobby req t Ht) as [[_ Hh]|[-> _]];
      [contradiction | reflexivity].
Qed.

Lemma join_passphrase_shape_first_witness :
  let req := Sample.anonymous "482913" (Js.Str "abcde") (Js.Str "eve") in
  with2FA Sample.open_lobby = false
  /\ joinLobby Sample.db req = reply (BadRequest (req_body req)) Sample.db.
Proof.
  intros req. split; [reflexivity|].
  apply (proj1 (join_passphrase_shape_first Sample.db req Sample.open_lobby
                  eq_refl) "abcde"); [reflexivity | discriminate].
Defined.

(** ** Name availability *)

(** The availability check fails exactly on the strings that a confirmed
    slot bears. *)
Lemma checkIfNameFree_false lobby v :
  checkIfNameFree lobby v = false
  <-> exists s, v = Js.Str s /\ holdsConfirmed lobby s.
Proof.
  unfold checkIfNameFree, holdsConfirmed.
  rewrite negb_false_iff, existsb_exists. split.
  - intros (p & Hin & Hp). apply andb_true_iff in Hp as [Hc Heq].
    destruct v; simpl in Heq; try discriminate.
    apply String.eqb_eq in Heq. exists s. split; [reflexivity|].
    now exists p.
  - intros (s & -> & p & Hin & Hc & Hn). exists p. split; [exact Hin|].
    rewrite Hc. simpl. now apply String.eqb_eq.
Qed.

(** C6: for an existing lobby and a name sent in the body, the name
    route reports the name unavailable iff a confirmed slot bears exactly
    that name; and the join route decides availability by the same
    check, so after a report that the name is free an anonymous join
    under that name on the same collection is never answered with
    NameTaken, and is accepted when it fails no other check. *)
Theorem checkName_agrees_with_join db p b lobby :
  Repo.findOne db p = Some lobby ->
  body_name b <> Js.Undefined ->
  (checkName db p b = NameUnavailable
   <-> exists s, body_name b = Js.Str s /\ holdsConfirmed lobby s)
  /\ (checkName db p b = NameAvailable
      <-> ~ exists s, body_name b = Js.Str s /\ holdsConfirmed lobby s)
  /\ (checkName db p b = NameAvailable ->
      forall req,
        req_pin req = p -> req_token req = None ->
        body_name (req_body req) = body_name b ->
        response (joinLobby db req) <> NameTaken
        /\ (Joi.passphraseValidator (body_passphrase (req_body req)) = true ->
            lobbyClosed lobby = false ->
            passphraseMismatch lobby req = false ->
            Joi.nameValidator (body_name b) = true ->
            res_code (response (joinLobby db req)) = 200)).
Proof.
  intros Hfind Hdef.
  assert (checkName db p b
          = if checkIfNameFree lobby (body_name b)
            then NameAvailable else NameUnavailable) as Hcheck.
  { unfold checkName. rewrite Hfind.
    destruct (body_name b); try contradiction;
      now destruct (checkIfNameFree lobby _). }
  rewrite Hcheck, <- checkIfNameFree_false.
  destruct (checkIfNameFree lobby (body_name b)) eqn:Hfree.
  - split; [split; discriminate|]. split; [split; [discriminate | reflexivity]|].
    intros _ req <- Ht Hname. unfold joinLobby, passphraseMismatch.
    rewrite Hfind. unfold resolveIdentity. rewrite Ht, Hname, Hfree.
    split.
    + destruct (Joi.passphraseValidator _); simpl; [|discriminate].
      destruct (lobbyClosed lobby); [discriminate|].
      destruct (with2FA lobby && _); [discriminate|].
      destruct (Joi.nameValidator _); simpl; [|discriminate].
      destruct (body_name b); discriminate.
    + intros -> -> -> Hv. rewrite Hv. simpl.
      destruct (body_name b); try discriminate Hv. reflexivity.
  - split; [split; reflexivity|].
    split; [split; [discriminate | intros H; now contradiction H]|].
    discriminate.
Qed.

Lemma checkName_agrees_with_join_witness :
  let b := mkBody Js.Undefined (Js.Str "bob") in
  let req := Sample.anonymous "482913" Js.Undefined (Js.Str "bob") in
  checkName Sample.db "482913" b = NameAvailable
  /\ response (joinLobby Sample.db req) <> NameTaken
  /\ res_code (response (joinLobby Sample.db req)) = 200.
Proof.
  intros b req. split; [reflexivity|].
  assert (body_name b <> Js.Undefined) as Hdef by discriminate.
  destruct (checkName_agrees_with_join Sample.db "482913" b
              Sample.open_lobby eq_refl Hdef) as (_ & _ & Hjoin).
  destruct (Hjoin eq_refl req eq_refl eq_refl eq_refl) as [Hnot Hok].
  split; [exact Hnot|]. apply Hok; reflexivity.
Defined.

(** ** Deleting a lobby *)

(** C8: in a collection with one document per pin, deleting an existing
    lobby with the token of an account other than the owner is answered
    with Unauthorized, writes nothing, emits nothing and leaves the
    collection as it was.  With the token of the owner the document is
    removed, so that the lobby route answers NotFound for the pin
    afterwards, and one closure event with reason lobby_closed is
    emitted for the pin.  When the driver reports a failure nothing is
    removed and nothing is emitted: the event follows a successful
    deletion only. *)
Theorem delete_owner_only driverError db req lobby :
  List.NoDup (map pin db) ->
  Repo.findOne db (req_pin req) = Some lobby ->
  (forall t, req_token req = Some t -> token_id t <> owner lobby ->
             deleteLobby driverError db req = reply Unauthorized db)
  /\ (forall t, req_token req = Some t -> token_id t = owner lobby ->
        (driverError = false ->
         response (deleteLobby driverError db req) = Deleted
         /\ Repo.findOne (stored (deleteLobby driverError db req))
                         (req_pin req) = None
         /\ getLobby (stored (deleteLobby driverError db req)) (req_pin req)
            = NotFound
         /\ emitted (deleteLobby driverError db req)
            = [mkLobbyEvent (req_pin req) CLOSE "lobby_closed"])
        /\ (driverError = true ->
            response (deleteLobby driverError db req) = DeleteFailed
            /\ stored (deleteLobby driverError db req) = db
            /\ emitted (deleteLobby driverError db req) = []))
  /\ (emitted (deleteLobby driverError db req) <> [] ->
      response (deleteLobby driverError db req) = Deleted).
Proof.
  intros Hpins Hfind. unfold deleteLobby. rewrite Hfind.
  split; [|split].
  - intros t -> Hne. simpl. apply not_eq_sym, N.eqb_neq in Hne.
    now rewrite Hne.
  - intros t -> Heq. simpl. rewrite Heq, N.eqb_refl. simpl. split.
    + intros ->. simpl. unfold getLobby.
      rewrite (findOne_deleteOne db (req_pin req) Hpins). now repeat split.
    + intros ->. now repeat split.
  - destruct (ownerEquals lobby (req_token req)); simpl; [|congruence].
    destruct driverError; simpl; congruence.
Qed.

Lemma delete_owner_only_witness :
  let intruder := Sample.account "482913" 71%N "bob" Js.Undefined in
  let host := Sample.account "482913" 70%N "ann" Js.Undefined in
  deleteLobby false Sample.db intruder = reply Unauthorized Sample.db
  /\ response (deleteLobby false Sample.db host) = Deleted
  /\ getLobby (stored (deleteLobby false Sample.db host)) "482913"
     = NotFound.
Proof.
  intros intruder host.
  assert (List.NoDup (map pin Sample.db)) as Hpins.
  { simpl. repeat constructor; simpl; intuition discriminate. }
  split.
  - apply (proj1 (delete_owner_only false Sample.db intruder
                    Sample.open_lobby Hpins eq_refl)
             (mkTokenData 71%N "bob")); [reflexivity | discriminate].
  - destruct (proj1 (proj2 (delete_owner_only false Sample.db host
                              Sample.open_lobby Hpins eq_refl))
                (mkTokenData 70%N "ann") eq_refl eq_refl) as [Hdone _].
    destruct (Hdone eq_refl) as (Hr & _ & Hgone & _). now split.
Defined.

(** ** What a join leaves of the collection *)

Lemma findOne_not_in db p :
  Repo.findOne db p = None -> ~ In p (map pin db).
Proof.
  induction db as [|l rest IH]; simpl; [tauto|].
  destruct (String.eqb (pin l) p) eqn:E; [discriminate|].
  apply String.eqb_neq in E. intros Hnone [Heq|Hin]; [congruence|].
  now apply IH.
Qed.

Lemma findOneAndUpdate_pins db i ps :
  map pin (Repo.findOneAndUpdate db i ps) = map pin db.
Proof.
  induction db as [|l rest IH]; simpl; [reflexivity|].
  destruct (N.eqb (_id l) i); simpl; [reflexivity | now rewrite IH].
Qed.

Lemma findOneAndUpdate_ids db i ps :
  map _id (Repo.findOneAndUpdate db i ps) = map _id db.
Proof.
  induction db as [|l rest IH]; simpl; [reflexivity|].
  destruct (N.eqb (_id l) i); simpl; [reflexivity | now rewrite IH].
Qed.

(** With ids unique, rewriting the document read under one pin leaves
    what is read under any other pin. *)
Lemma findOne_findOneAndUpdate_other db p q l ps :
  List.NoDup (map _id db) ->
  Repo.findOne db p = Some l ->
  q <> p ->
  Repo.findOne (Repo.findOneAndUpdate db (_id l) ps) q = Repo.findOne db q.
Proof.
  induction db as [|d rest IH]; simpl; [discriminate|].
  intros Hnd Hfind Hq. apply List.NoDup_cons_iff in Hnd as [Hfresh Hnd].
  destruct (String.eqb (pin d) p) eqn:E.
  - injection Hfind as ->. rewrite N.eqb_refl. simpl.
    apply String.eqb_eq in E.
    destruct (String.eqb (pin l) q) eqn:E'; [|reflexivity].
    apply String.eqb_eq in E'. congruence.
  - destruct (N.eqb (_id d) (_id l)) eqn:Eid.
    + apply N.eqb_eq in Eid. exfalso. apply Hfresh. rewrite Eid.
      apply in_map. now apply findOne_some in Hfind.
    + simpl. destruct (String.eqb (pin d) q); [reflexivity|]. now apply IH.
Qed.

(** The collection a join leaves is the one it found, or the one it
    found with the players of the lobby it read replaced. *)
Lemma joinLobby_stored db req :
  stored (joinLobby db req) = db
  \/ exists lobby n reg,
       Repo.findOne db (req_pin req) = Some lobby
       /\ lobbyClosed lobby = false
       /\ resolveIdentity lobby req = inr (n, reg)
       /\ stored (joinLobby db req)
          = Repo.findOneAndUpdate db (_id lobby)
              (placePlayer lobby (mkPlayer n None false reg)).
Proof.
  destruct (joinLobby_cases db req) as [(r & -> & _)|Hok];
    [left; reflexivity|].
  destruct (joinLobby_accepted db req Hok)
    as (lobby & n & reg & Hfind & _ & Hc & _ & Hi & ->).
  right. exists lobby, n, reg. now repeat split.
Qed.

Lemma joinLobby_keys db req :
  map pin (stored (joinLobby db req)) = map pin db
  /\ map _id (stored (joinLobby db req)) = map _id db
  /\ length (stored (joinLobby db req)) = length db.
Proof.
  assert (map pin (stored (joinLobby db req)) = map pin db
          /\ map _id (stored (joinLobby db req)) = map _id db) as [Hp Hi].
  { destruct (joinLobby_stored db req) as [->|(l & n & reg & _ & _ & _ & ->)];
      [now split|].
    split; [apply findOneAndUpdate_pins | apply findOneAndUpdate_ids]. }
  repeat split; try assumption.
  rewrite <- (length_map pin), Hp. apply length_map.
Qed.

(** X1: whatever the request, the join route neither adds nor removes
    a document, and the pins and the ids of the documents stay as they
    were, in order. *)
Theorem join_keeps_documents db req :
  map pin (stored (joinLobby db req)) = map pin db
  /\ map _id (stored (joinLobby db req)) = map _id db
  /\ length (stored (joinLobby db req)) = length db.
Proof. exact (joinLobby_keys db req). Qed.

(** X2: with ids unique, a join under one pin leaves what every other
    pin leads to. *)
Theorem join_frames_other_lobbies db req q :
  List.NoDup (map _id db) ->
  q <> req_pin req ->
  Repo.findOne (stored (joinLobby db req)) q = Repo.findOne db q.
Proof.
  intros Hids Hq.
  destruct (joinLobby_stored db req)
    as [->|(l & n & reg & Hfind & _ & _ & ->)]; [reflexivity|].
  now apply findOne_findOneAndUpdate_other with (p := req_pin req).
Qed.

Lemma join_frames_other_lobbies_witness :
  Repo.findOne
    (stored (joinLobby Sample.db
               (Sample.anonymous "555666" (Js.Str "Q7ZK") (Js.Str "eve"))))
    "482913"
  = Some Sample.open_lobby.
Proof.
  assert (List.NoDup (map _id Sample.db)) as Hids.
  { simpl. repeat constructor; simpl; intuition discriminate. }
  rewrite (join_frames_other_lobbies Sample.db
             (Sample.anonymous "555666" (Js.Str "Q7ZK") (Js.Str "eve"))
             "482913" Hids); [reflexivity | discriminate].
Defined.

(** X3: an accepted join writes an array in which every confirmed slot
    of the lobby it read sits at its old index, unchanged: a confirmed
    player is never overwritten, and the confirmed players keep their
    order. *)
Theorem join_keeps_confirmed_slots db req lobby i ps' :
  Repo.findOne db (req_pin req) = Some lobby ->
  writes (joinLobby db req) = [UpdatePlayers i ps'] ->
  (forall k p, players lobby !! k = Some p -> confirmed p = true ->
               ps' !! k = Some p)
  /\ List.filter confirmed ps' = List.filter confirmed (players lobby).
Proof.
  intros Hfind Hw.
  destruct (joinLobby_cases db req) as [(r & Hr & _)|Hok];
    [rewrite Hr in Hw; discriminate|].
  destruct (joinLobby_accepted db req Hok)
    as (l & n & reg & Hl & _ & Hc & _ & _ & Hj).
  rewrite Hfind in Hl. injection Hl as <-. rewrite Hj in Hw. simpl in Hw.
  injection Hw as _ <-. apply lobbyClosed_false in Hc as [_ Hgate].
  split; [|now apply placePlayer_confirmed].
  intros k p Hk Hp.
  destruct (Qeq_dec (Js.of_length (length (players lobby))) (maxPlayers lobby))
    as [Hfull|Hroom].
  - destruct (placePlayer_overwrite lobby (mkPlayer n None false reg)
                Hgate Hfull) as (j & old & _ & Hold & Hu & _ & ->).
    rewrite list_lookup_insert_ne; [exact Hk|]. intros <-. congruence.
  - rewrite (placePlayer_append _ _ Hroom), lookup_app_l; [exact Hk|].
    now apply lookup_lt_Some in Hk.
Qed.

Lemma join_keeps_confirmed_slots_witness :
  List.filter confirmed
    [Sample.ann; mkPlayer "eve" None false false; Sample.dan]
  = List.filter confirmed (players Sample.stale_lobby)
  /\ [Sample.ann; mkPlayer "eve" None false false; Sample.dan] !! 2%nat
     = Some Sample.dan.
Proof.
  destruct (join_keeps_confirmed_slots Sample.db
              (Sample.anonymous "555666" (Js.Str "Q7ZK") (Js.Str "eve"))
              Sample.stale_lobby 4%N _ eq_refl eq_refl) as [Hkeep Hsame].
  split; [exact Hsame|]. apply Hkeep; reflexivity.
Defined.

(** ** Runs of join requests *)

Lemma sameButPending_refl l : sameButPending l l.
Proof. unfold sameButPending. now repeat split. Qed.

Lemma sameButPending_trans l1 l2 l3 :
  sameButPending l1 l2 -> sameButPending l2 l3 -> sameButPending l1 l3.
Proof.
  unfold sameButPending.
  intros (A1 & A2 & A3 & A4 & A5 & A6 & A7 & A8)
         (B1 & B2 & B3 & B4 & B5 & B6 & B7 & B8).
  repeat split; congruence.
Qed.

(** The gate reads nothing of a lobby but what [sameButPending] keeps. *)
Lemma lobbyClosed_sameButPending l l' :
  sameButPending l l' -> lobbyClosed l' = lobbyClosed l.
Proof.
  intros (_ & _ & _ & _ & Hmax & Hst & _ & Hconf). unfold lobbyClosed.
  now rewrite Hconf, Hmax, Hst.
Qed.

(** One join, seen from any pin of a collection with unique ids: the
    lobby is still there, changed in its unconfirmed slots at most, and,
    when its capacity is a whole number, within the capacity bounds if
    it was. *)
Lemma joinLobby_lobby_after db req q l :
  List.NoDup (map _id db) ->
  Repo.findOne db q = Some l ->
  exists l',
    Repo.findOne (stored (joinLobby db req)) q = Some l'
    /\ sameButPending l l'
    /\ (wholeNumber (maxPlayers l) -> slotsBounded l -> slotsBounded l').
Proof.
  intros Hids Hq.
  destruct (joinLobby_stored db req)
    as [->|(lobby & n & reg & Hfind & Hc & _ & ->)].
  { exists l. split; [exact Hq|]. split; [apply sameButPending_refl | tauto]. }
  destruct (String.eqb_spec q (req_pin req)) as [->|Hne].
  - rewrite Hfind in Hq. injection Hq as ->.
    apply lobbyClosed_false in Hc as [_ Hgate].
    exists (set_players l (placePlayer l (mkPlayer n None false reg))).
    split; [now apply findOne_findOneAndUpdate|].
    assert (List.filter confirmed
              (placePlayer l (mkPlayer n None false reg))
            = List.filter confirmed (players l)) as Hsame
      by now apply placePlayer_confirmed.
    split.
    + unfold sameButPending. simpl. now repeat split.
    + intros Hwhole [Hconf Hlen]. unfold slotsBounded, confirmedCount.
      simpl. rewrite Hsame. split; [exact Hconf|].
      now apply placePlayer_length.
  - exists l. rewrite (findOne_findOneAndUpdate_other db (req_pin req) q);
      try assumption.
    split; [exact Hq|]. split; [apply sameButPending_refl | tauto].
Qed.

Lemma joinAll_lobby_after db reqs q l :
  List.NoDup (map _id db) ->
  Repo.findOne db q = Some l ->
  exists l',
    Repo.findOne (joinAll db reqs) q = Some l'
    /\ sameButPending l l'
    /\ (wholeNumber (maxPlayers l) -> slotsBounded l -> slotsBounded l').
Proof.
  unfold joinAll. revert db l.
  induction reqs as [|req reqs IH]; intros db l Hids Hq; simpl.
  - exists l. split; [exact Hq|]. split; [apply sameButPending_refl | tauto].
  - destruct (joinLobby_lobby_after db req q l Hids Hq)
      as (l1 & Hq1 & Hsame1 & Hb1).
    assert (List.NoDup (map _id (stored (joinLobby db req)))) as Hids1.
    { now rewrite (proj1 (proj2 (joinLobby_keys db req))). }
    destruct (IH _ l1 Hids1 Hq1) as (l' & Hq' & Hsame' & Hb').
    exists l'. split; [exact Hq'|].
    split; [now apply sameButPending_trans with l1|].
    intros Hwhole Hb. apply Hb'; [|now apply Hb1].
    destruct Hsame1 as (_ & _ & _ & _ & Hmax & _). now rewrite Hmax.
Qed.

(** X4: in a collection with unique ids, no run of join requests, to
    whatever pins and in whatever order, removes a lobby, changes its
    pin, passphrase, 2FA flag, capacity, status or owner, or touches one
    of its confirmed slots; and a lobby whose maxPlayers is a whole
    number is not taken out of the capacity bounds (confirmed players
    and allocated slots at most maxPlayers) by such a run.  For a
    capacity that is not whole the last part fails, as the sample of
    C3 shows. *)
Theorem joinAll_keeps_lobbies db reqs q l :
  List.NoDup (map _id db) ->
  Repo.findOne db q = Some l ->
  exists l',
    Repo.findOne (joinAll db reqs) q = Some l'
    /\ sameButPending l l'
    /\ (wholeNumber (maxPlayers l) -> slotsBounded l -> slotsBounded l').
Proof. exact (joinAll_lobby_after db reqs q l). Qed.

Lemma joinAll_keeps_lobbies_witness :
  let reqs := [Sample.anonymous "555666" (Js.Str "Q7ZK") (Js.Str "eve");
               Sample.account "555666" 72%N "fay" (Js.Str "Q7ZK");
               Sample.anonymous "482913" Js.Undefined (Js.Str "gil")] in
  exists l',
    Repo.findOne (joinAll Sample.db reqs) "555666" = Some l'
    /\ sameButPending Sample.stale_lobby l'
    /\ slotsBounded l'.
Proof.
  intros reqs.
  assert (List.NoDup (map _id Sample.db)) as Hids.
  { simpl. repeat constructor; simpl; intuition discriminate. }
  destruct (joinAll_keeps_lobbies Sample.db reqs "555666" Sample.stale_lobby
              Hids eq_refl) as (l' & Hf & Hs & Hb).
  exists l'. split; [exact Hf|]. split; [exact Hs|]. apply Hb.
  - exists 3. reflexivity.
  - split; vm_compute; discriminate.
Defined.

Lemma joinAll_pins db reqs : map pin (joinAll db reqs) = map pin db.
Proof.
  unfold joinAll. revert db. induction reqs as [|req reqs IH]; intros db;
    simpl; [reflexivity|].
  rewrite IH. apply joinLobby_keys.
Qed.

(** X5: in a collection with unique ids, what GET /:pin answers for a
    pin is the same before and after any run of join requests: joins
    alone never fill a lobby, since the slots they place are
    unconfirmed. *)
Theorem getLobby_after_joins db reqs q :
  List.NoDup (map _id db) ->
  getLobby (joinAll db reqs) q = getLobby db q.
Proof.
  intros Hids. unfold getLobby.
  destruct (Repo.findOne db q) as [l|] eqn:Hq.
  - destruct (joinAll_lobby_after db reqs q l Hids Hq)
      as (l' & -> & Hsame & _).
    rewrite (lobbyClosed_sameButPending l l' Hsame).
    destruct Hsame as (_ & Hpin & _ & H2fa & _). unfold LobbyExists.
    now rewrite Hpin, H2fa.
  - apply findOne_not_in in Hq. rewrite <- (joinAll_pins db reqs) in Hq.
    now rewrite (findOne_none _ _ Hq).
Qed.

Lemma getLobby_after_joins_witness :
  getLobby (joinAll Sample.db
              [Sample.anonymous "555666" (Js.Str "Q7ZK") (Js.Str "eve");
               Sample.anonymous "555666" (Js.Str "Q7ZK") (Js.Str "fay")])
           "555666"
  = LobbyExists Sample.stale_lobby.
Proof.
  assert (List.NoDup (map _id Sample.db)) as Hids.
  { simpl. repeat constructor; simpl; intuition discriminate. }
  rewrite (getLobby_after_joins Sample.db _ "555666" Hids). reflexivity.
Defined.

(** ** The slot of the joiner *)

Lemma strict_eq_true a b : Js.strict_eq a b = true <-> a = b.
Proof.
  destruct a, b; simpl; split; try congruence; try discriminate.
  - intros H. apply Bool.eqb_prop in H. congruence.
  - intros [= ->]. apply Bool.eqb_reflx.
  - intros H. apply Z.eqb_eq in H. congruence.
  - intros [= ->]. apply Z.eqb_refl.
  - intros H. apply String.eqb_eq in H. congruence.
  - intros [= ->]. apply String.eqb_refl.
Qed.

(** The name the validator lets through is a string of 1 to 20 code
    units, none of them white space. *)
Lemma nameValidator_shape v :
  Joi.nameValidator v = true ->
  exists n, v = Js.Str n
            /\ (1 <= String.length n <= 20)%nat
            /\ forall c, In c (list_ascii_of_string n) ->
                         Joi.is_space c = false.
Proof.
  destruct v; simpl; try discriminate. intros H. exists s.
  split; [reflexivity|]. unfold Joi.name_regex in H.
  repeat (apply andb_true_iff in H as [H ?]).
  repeat match goal with
         | X : (_ <=? _)%nat = true |- _ => apply Nat.leb_le in X
         end.
  split; [lia|]. intros c Hc.
  match goal with
  | X : forallb _ _ = true |- _ =>
      rewrite forallb_forall in X; specialize (X c Hc);
      now apply negb_true_iff in X
  end.
Qed.

(** X6: an accepted join without a token has sent as name a string of
    1 to 20 code units without white space, and the array it writes
    holds a slot with exactly that name, unconfirmed, unregistered and
    bound to no socket. *)
Theorem join_anonymous_slot db req :
  req_token req = None ->
  res_code (response (joinLobby db req)) = 200 ->
  exists lobby n ps',
    Repo.findOne db (req_pin req) = Some lobby
    /\ body_name (req_body req) = Js.Str n
    /\ (1 <= String.length n <= 20)%nat
    /\ (forall c, In c (list_ascii_of_string n) -> Joi.is_space c = false)
    /\ writes (joinLobby db req) = [UpdatePlayers (_id lobby) ps']
    /\ In (mkPlayer n None false false) ps'.
Proof.
  intros Ht Hok.
  destruct (joinLobby_accepted db req Hok)
    as (lobby & n & reg & Hfind & _ & Hc & _ & Hi & ->).
  apply lobbyClosed_false in Hc as [_ Hgate].
  unfold resolveIdentity in Hi. rewrite Ht in Hi.
  destruct (Joi.nameValidator (body_name (req_body req))) eqn:Hv;
    [|discriminate]. simpl in Hi.
  destruct (negb (checkIfNameFree _ _)); [discriminate|].
  destruct (nameValidator_shape _ Hv) as (m & Hm & Hlen & Hsp).
  rewrite Hm in Hi. injection Hi as <- <-.
  exists lobby, m, (placePlayer lobby (mkPlayer m None false false)).
  repeat (split; [assumption || reflexivity|]).
  now apply placePlayer_In.
Qed.

Lemma join_anonymous_slot_witness :
  let req := Sample.anonymous "482913" Js.Undefined (Js.Str "eve") in
  exists lobby n ps',
    Repo.findOne Sample.db (req_pin req) = Some lobby
    /\ body_name (req_body req) = Js.Str n
    /\ (1 <= String.length n <= 20)%nat
    /\ (forall c, In c (list_ascii_of_string n) -> Joi.is_space c = false)
    /\ writes (joinLobby Sample.db req) = [UpdatePlayers (_id lobby) ps']
    /\ In (mkPlayer n None false false) ps'.
Proof.
  intros req. apply (join_anonymous_slot Sample.db req); reflexivity.
Defined.

(** X7: an accepted join with an account token places a registered,
    unconfirmed slot under the account name, whatever name the body
    carries, and no registered slot of the lobby it read bore that
    name. *)
Theorem join_account_slot db req t :
  req_token req = Some t ->
  res_code (response (joinLobby db req)) = 200 ->
  exists lobby ps',
    Repo.findOne db (req_pin req) = Some lobby
    /\ ~ holdsRegistered lobby (token_name t)
    /\ writes (joinLobby db req) = [UpdatePlayers (_id lobby) ps']
    /\ In (mkPlayer (token_name t) None false true) ps'.
Proof.
  intros Ht Hok.
  destruct (joinLobby_accepted db req Hok)
    as (lobby & n & reg & Hfind & _ & Hc & _ & Hi & ->).
  apply lobbyClosed_false in Hc as [_ Hgate].
  destruct (resolveIdentity_account lobby req t Ht) as [[Hr _]|[Hr Hfree]];
    rewrite Hr in Hi; [discriminate|]. injection Hi as <- <-.
  exists lobby, (placePlayer lobby (mkPlayer (token_name t) None false true)).
  repeat (split; [assumption || reflexivity|]).
  now apply placePlayer_In.
Qed.

Lemma join_account_slot_witness :
  let req := mkRequest "482913" (Some (mkTokenData 72%N "eve"))
                       (mkBody Js.Undefined (Js.Str "someone else")) in
  exists lobby ps',
    Repo.findOne Sample.db (req_pin req) = Some lobby
    /\ ~ holdsRegistered lobby "eve"
    /\ writes (joinLobby Sample.db req) = [UpdatePlayers (_id lobby) ps']
    /\ In (mkPlayer "eve" None false true) ps'.
Proof.
  intros req.
  apply (join_account_slot Sample.db req (mkTokenData 72%N "eve"));
    reflexivity.
Defined.

(** X8: with ids unique, an account whose join was accepted cannot
    join the same lobby again: the same request, served next, is
    answered "Can't join the game twice." and writes nothing. *)
Theorem join_twice_with_account db req t :
  List.NoDup (map _id db) ->
  req_token req = Some t ->
  res_code (response (joinLobby db req)) = 200 ->
  joinLobby (stored (joinLobby db req)) req
  = reply AlreadyJoined (stored (joinLobby db req)).
Proof.
  intros Hids Ht Hok.
  destruct (joinLobby_accepted db req Hok)
    as (lobby & n & reg & Hfind & Hv & Hc & Hp & Hi & Hj).
  destruct (resolveIdentity_account lobby req t Ht) as [[Hr _]|[Hr _]];
    rewrite Hr in Hi; [discriminate|]. injection Hi as <- <-.
  rewrite Hj. simpl.
  set (ps' := placePlayer lobby (mkPlayer (token_name t) None false true)).
  pose proof (findOne_findOneAndUpdate db (req_pin req) lobby ps' Hids Hfind)
    as Hfind'.
  pose proof Hc as Hgate. apply lobbyClosed_false in Hgate as [_ Hgate].
  assert (sameButPending lobby (set_players lobby ps')) as Hsame.
  { unfold sameButPending. simpl. repeat split.
    now apply placePlayer_confirmed. }
  unfold joinLobby at 1. rewrite Hfind', Hv. simpl negb. cbv iota.
  rewrite (lobbyClosed_sameButPending _ _ Hsame), Hc. simpl with2FA.
  simpl passphrase. rewrite Hp.
  destruct (resolveIdentity_account (set_players lobby ps') req t Ht)
    as [[-> _]|[_ Hfree]]; [reflexivity|].
  exfalso. apply Hfree.
  exists (mkPlayer (token_name t) None false true). simpl.
  split; [now apply placePlayer_In | now split].
Qed.

Lemma join_twice_with_account_witness :
  let req := Sample.account "482913" 72%N "eve" Js.Undefined in
  joinLobby (stored (joinLobby Sample.db req)) req
  = reply AlreadyJoined (stored (joinLobby Sample.db req)).
Proof.
  intros req.
  assert (List.NoDup (map _id Sample.db)) as Hids.
  { simpl. repeat constructor; simpl; intuition discriminate. }
  exact (join_twice_with_account Sample.db req (mkTokenData 72%N "eve")
           Hids eq_refl eq_refl).
Defined.

(** ** The passphrase of an accepted join *)

(** X9: an accepted join has sent no passphrase or a string of four
    code units; on a lobby with 2FA what it sent is what the lobby
    stores (on a 2FA lobby that stores no passphrase, only a request
    without the field gets through); on a lobby without 2FA the field is
    not compared. *)
Theorem join_accepted_passphrase db req :
  res_code (response (joinLobby db req)) = 200 ->
  exists lobby,
    Repo.findOne db (req_pin req) = Some lobby
    /\ (body_passphrase (req_body req) = Js.Undefined
        \/ exists s, body_passphrase (req_body req) = Js.Str s
                     /\ String.length s = 4%nat)
    /\ (with2FA lobby = true ->
        body_passphrase (req_body req) = Js.of_option (passphrase lobby)).
Proof.
  intros Hok.
  destruct (joinLobby_accepted db req Hok)
    as (lobby & n & reg & Hfind & Hv & _ & Hp & _).
  exists lobby. split; [exact Hfind|]. split.
  - destruct (body_passphrase (req_body req)); simpl in Hv;
      try discriminate; [now left|].
    right. exists s. split; [reflexivity | now apply Nat.eqb_eq].
  - intros H2fa. rewrite H2fa in Hp. simpl in Hp.
    apply negb_false_iff, strict_eq_true in Hp. congruence.
Qed.

Lemma join_accepted_passphrase_witness :
  let req := Sample.anonymous "555666" (Js.Str "Q7ZK") (Js.Str "eve") in
  exists lobby,
    Repo.findOne Sample.db (req_pin req) = Some lobby
    /\ (body_passphrase (req_body req) = Js.Undefined
        \/ exists s, body_passphrase (req_body req) = Js.Str s
                     /\ String.length s = 4%nat)
    /\ (with2FA lobby = true ->
        body_passphrase (req_body req) = Js.of_option (passphrase lobby)).
Proof.
  intros req. apply (join_accepted_passphrase Sample.db req). reflexivity.
Defined.

(** ** GET /:pin and the gate of the join route *)

(** X10: for an existing lobby and a join request whose passphrase
    field passes the shape check, GET /:pin answers LOBBY_FULL exactly
    when the join is answered LOBBY_FULL, and answers with the lobby
    view exactly when the join is not: the two routes apply the same
    capacity and status gate. *)
Theorem getLobby_agrees_with_join_gate db req lobby :
  Repo.findOne db (req_pin req) = Some lobby ->
  Joi.passphraseValidator (body_passphrase (req_body req)) = true ->
  (getLobby db (req_pin req) = InspectFull
   <-> response (joinLobby db req) = LobbyFull)
  /\ (getLobby db (req_pin req) = LobbyExists lobby
      <-> response (joinLobby db req) <> LobbyFull).
Proof.
  intros Hfind Hv. unfold getLobby, joinLobby. rewrite Hfind, Hv. simpl.
  destruct (lobbyClosed lobby).
  - split; split; try reflexivity; try discriminate. intros H. now contradiction H.
  - assert (response
              (if with2FA lobby
                  && negb (Js.strict_eq (Js.of_option (passphrase lobby))
                             (body_passphrase (req_body req)))
               then reply InvalidPassphrase db
               else match resolveIdentity lobby req with
                    | inl rejection => reply rejection db
                    | inr (n, reg) =>
                        let '(token, refreshToken) :=
                          createTokens n (req_pin req) in
                        let player := mkPlayer n None false reg in
                        let players' := placePlayer lobby player in
                        mkOutcome (Joined reg token refreshToken)
                          (Repo.findOneAndUpdate db (_id lobby) players')
                          [UpdatePlayers (_id lobby) players'] []
                    end) <> LobbyFull) as Hne.
    { destruct (with2FA lobby && _); [discriminate|].
      destruct (resolveIdentity lobby req) as [r|[n reg]] eqn:Hi;
        [|discriminate].
      simpl. unfold resolveIdentity in Hi.
      repeat match type of Hi with
             | context [match ?x with _ => _ end] => destruct x
             end; inversion Hi; discriminate. }
    split; split; try discriminate; try (intros _; exact Hne);
      try reflexivity.
    intros H. now contradiction Hne.
Qed.

Lemma getLobby_agrees_with_join_gate_witness :
  let req := Sample.anonymous "100200" Js.Undefined (Js.Str "eve") in
  getLobby Sample.db "100200" = InspectFull
  <-> response (joinLobby Sample.db req) = LobbyFull.
Proof.
  intros req.
  exact (proj1 (getLobby_agrees_with_join_gate Sample.db req
                  Sample.full_lobby eq_refl eq_refl)).
Defined.

(** ** What a delete leaves of the collection *)

Lemma deleteOne_length db p l :
  Repo.findOne db p = Some l ->
  length db = S (length (Repo.deleteOne db p)).
Proof.
  induction db as [|d rest IH]; simpl; [discriminate|].
  destruct (String.eqb (pin d) p); [reflexivity|].
  intros H. simpl. f_equal. now apply IH.
Qed.



(** The delete route removes a document only when it answers 200. *)
Lemma deleteLobby_cases e db req :
  (response (deleteLobby e db req) <> Deleted
   /\ stored (deleteLobby e db req) = db
   /\ emitted (deleteLobby e db req) = [])
  \/ (exists lobby,
        Repo.findOne db (req_pin req) = Some lobby
        /\ ownerEquals lobby (req_token req) = true
        /\ deleteLobby e db req
           = mkOutcome Deleted (Repo.deleteOne db (req_pin req))
                       [DeleteByPin (req_pin req)]
                       [mkLobbyEvent (req_pin req) CLOSE "lobby_closed"]).
Proof.
  unfold deleteLobby.
  destruct (Repo.findOne db (req_pin req)) as [lobby|];
    [|left; now repeat split].
  destruct (ownerEquals lobby (req_token req)) eqn:Ho; simpl;
    [|left; now repeat split].
  destruct e; [left; now repeat split|].
  right. now exists lobby.
Qed.

(** X11: a delete that answers 200 was sent with the token of the
    owner, takes exactly one document out of the collection and leaves
    what every other pin leads to; a delete that answers anything else
    leaves the collection as it was and emits nothing. *)
Theorem delete_removes_one_document e db req :
  (response (deleteLobby e db req) = Deleted ->
   (exists lobby t,
      Repo.findOne db (req_pin req) = Some lobby
      /\ req_token req = Some t /\ token_id t = owner lobby)
   /\ length db = S (length (stored (deleteLobby e db req)))
   /\ forall q, q <> req_pin req ->
                Repo.findOne (stored (deleteLobby e db req)) q
                = Repo.findOne db q)
  /\ (response (deleteLobby e db req) <> Deleted ->
      stored (deleteLobby e db req) = db
      /\ emitted (deleteLobby e db req) = []).
Proof.
  destruct (deleteLobby_cases e db req)
    as [(Hne & Hs & He)|(lobby & Hfind & Ho & ->)]; simpl.
  - split; [intros H; contradiction | now intros _].
  - split; [|intros H; now contradiction H]. intros _. split; [|split].
    + unfold ownerEquals in Ho. destruct (req_token req) as [t|];
        [|discriminate].
      exists lobby, t. apply N.eqb_eq in Ho. now repeat split.
    + now apply deleteOne_length with lobby.
    + intros q Hq. now apply findOne_deleteOne_other.
Qed.

Lemma delete_removes_one_document_witness :
  let req := Sample.account "482913" 70%N "ann" Js.Undefined in
  length Sample.db = S (length (stored (deleteLobby false Sample.db req)))
  /\ forall q, q <> req_pin req ->
               Repo.findOne (stored (deleteLobby false Sample.db req)) q
               = Repo.findOne Sample.db q.
Proof.
  intros req.
  exact (proj2 (proj1 (delete_removes_one_document false Sample.db req)
                  eq_refl)).
Defined.

(** X12: in a collection with one document per pin, once a delete has
    answered 200 the lobby is gone for every route: the same delete
    again, a join and a name check under that pin are all answered with
    NON_EXISTENT_LOBBY, and neither writes nor emits. *)
Theorem delete_then_not_found e db req :
  List.NoDup (map pin db) ->
  response (deleteLobby e db req) = Deleted ->
  let db' := stored (deleteLobby e db req) in
  (forall e' req', req_pin req' = req_pin req ->
                   deleteLobby e' db' req' = reply NotFound db')
  /\ (forall req', req_pin req' = req_pin req ->
                   joinLobby db' req' = reply NotFound db')
  /\ (forall b, checkName db' (req_pin req) b = NotFound).
Proof.
  intros Hpins Hok db'. subst db'.
  destruct (deleteLobby_cases e db req)
    as [(Hne & _)|(lobby & _ & _ & ->)]; [contradiction|]. simpl.
  pose proof (findOne_deleteOne db (req_pin req) Hpins) as Hgone.
  split; [|split].
  - intros e' req' Hp. unfold deleteLobby. now rewrite Hp, Hgone.
  - intros req' Hp. unfold joinLobby. now rewrite Hp, Hgone.
  - intros b. unfold checkName. now rewrite Hgone.
Qed.

Lemma delete_then_not_found_witness :
  let req := Sample.account "482913" 70%N "ann" Js.Undefined in
  let db' := stored (deleteLobby false Sample.db req) in
  joinLobby db' (Sample.anonymous "482913" Js.Undefined (Js.Str "eve"))
  = reply NotFound db'.
Proof.
  intros req db'.
  assert (List.NoDup (map pin Sample.db)) as Hpins.
  { simpl. repeat constructor; simpl; intuition discriminate. }
  apply (proj1 (proj2 (delete_then_not_found false Sample.db req Hpins
                         eq_refl))).
  reflexivity.
Defined.

(** ** Creating a lobby: the pin *)

Lemma find_nil db p :
  length (Create.find db p) = 0%nat <-> ~ In p (map pin db).
Proof.
  unfold Create.find. induction db as [|l rest IH]; simpl; [tauto|].
  destruct (String.eqb_spec (pin l) p) as [E|E]; simpl.
  - split; [discriminate | intros H; exfalso; apply H; now left].
  - rewrite IH. tauto.
Qed.

(** The loop ends on the first pin of the generator that no document
    bears, and only there. *)
Lemma pickPin_some db candidates p :
  Create.pickPin db candidates = Some p
  <-> exists taken later,
        candidates = (taken ++ p :: later)%list
        /\ (forall q, In q taken -> In q (map pin db))
        /\ ~ In p (map pin db).
Proof.
  induction candidates as [|c cs IH]; simpl.
  - split; [discriminate|]. intros (taken & later & H & _).
    destruct taken; discriminate.
  - destruct (length (Create.find db c) =? 0)%nat eqn:E; simpl.
    + apply Nat.eqb_eq, find_nil in E. split.
      * intros [= <-]. exists [], cs. now repeat split.
      * intros ([|t taken] & later & Hc & Htaken & Hfree).
        -- now injection Hc as ->.
        -- injection Hc as <- _. exfalso. apply E, Htaken. now left.
    + apply Nat.eqb_neq in E. rewrite find_nil in E. rewrite IH. split.
      * intros (taken & later & -> & Htaken & Hfree).
        exists (c :: taken), later. repeat split; [|exact Hfree].
        intros q [<-|Hq]; [|now apply Htaken].
        destruct (in_dec string_dec c (map pin db)); tauto.
      * intros ([|t taken] & later & Hc & Htaken & Hfree).
        -- injection Hc as <- _. contradiction.
        -- injection Hc as <- ->. exists taken, later.
           repeat split; [|exact Hfree]. intros q Hq. apply Htaken. now right.
Qed.

Lemma findOne_save_old db l' q l :
  Repo.findOne db q = Some l -> Repo.findOne (Create.save db l') q = Some l.
Proof.
  unfold Create.save. induction db as [|d rest IH]; simpl; [discriminate|].
  destruct (String.eqb (pin d) q); [trivial | exact IH].
Qed.

Lemma findOne_save_new db l :
  ~ In (pin l) (map pin db) ->
  Repo.findOne (Create.save db l) (pin l) = Some l.
Proof.
  unfold Create.save. induction db as [|d rest IH]; simpl.
  - intros _. now rewrite String.eqb_refl.
  - intros Hfree. destruct (String.eqb_spec (pin d) (pin l)) as [E|E];
      [exfalso; apply Hfree; now left|].
    apply IH. tauto.
Qed.

Lemma deleteOne_save db l :
  ~ In (pin l) (map pin db) ->
  Repo.deleteOne (Create.save db l) (pin l) = db.
Proof.
  unfold Create.save. induction db as [|d rest IH]; simpl.
  - intros _. now rewrite String.eqb_refl.
  - intros Hfree. destruct (String.eqb_spec (pin d) (pin l)) as [E|E];
      [exfalso; apply Hfree; now left|].
    f_equal. apply IH. tauto.
Qed.

(** What the create route has done when it answers 201. *)
Lemma createLobby_created db c r db' :
  Create.createLobby db c = Some (r, db') ->
  Create.code r = 201 ->
  exists s p,
    Create.validated c = Some s
    /\ Create.pickPin db (Create.pins c) = Some p
    /\ ~ In p (map pin db)
    /\ r = Create.Created p
    /\ db' = Create.save db (Create.newGame c s p).
Proof.
  unfold Create.createLobby.
  destruct (Create.validated c) as [s|]; [|intros [= <- <-]; discriminate].
  destruct (Create.pickPin db (Create.pins c)) as [p|] eqn:Hp;
    [|discriminate].
  destruct (Create.saveFails c); intros [= <- <-]; [discriminate|].
  intros _. exists s, p. repeat split.
  apply pickPin_some in Hp as (_ & _ & _ & _ & Hfree). exact Hfree.
Qed.

Lemma createLobby_not_created db c r db' :
  Create.createLobby db c = Some (r, db') ->
  Create.code r <> 201 -> db' = db.
Proof.
  unfold Create.createLobby.
  destruct (Create.validated c) as [s|]; [|now intros [= <- <-]].
  destruct (Create.pickPin db (Create.pins c)) as [p|]; [|discriminate].
  destruct (Create.saveFails c); intros [= <- <-]; [reflexivity|].
  simpl. congruence.
Qed.

(** X13: when the body has passed the schema, the save does not throw
    and the generator hands out taken pins followed by a pin that no
    document bears, the create route comes to an end, answers 201 with
    exactly that pin and adds one document under it. *)
Theorem create_takes_first_free_pin db c s taken p later :
  Create.validated c = Some s ->
  Create.saveFails c = false ->
  Create.pins c = (taken ++ p :: later)%list ->
  (forall q, In q taken -> In q (map pin db)) ->
  ~ In p (map pin db) ->
  Create.createLobby db c
  = Some (Create.Created p, (db ++ [Create.newGame c s p])%list).
Proof.
  intros Hv Hs Hpins Htaken Hfree. unfold Create.createLobby.
  rewrite Hv, Hs.
  assert (Create.pickPin db (Create.pins c) = Some p) as ->; [|reflexivity].
  apply pickPin_some. now exists taken, later.
Qed.

Lemma create_takes_first_free_pin_witness :
  Create.createLobby Sample.db Fresh.call
  = Some (Create.Created "777888", Fresh.db).
Proof.
  apply (create_takes_first_free_pin Sample.db Fresh.call Fresh.settings
           ["482913"; "100200"] "777888" ["999000"]);
    try reflexivity.
  - simpl. intros q [<-|[<-|[]]]; tauto.
  - simpl. intuition discriminate.
Defined.

(** ** Creating a lobby: the collection *)

(** X14: when the create route answers 201, the pin it returns was
    borne by no document before and now leads to the new document, which
    is owned by the caller, has the validated capacity and holds one
    slot: the caller's, registered and confirmed.  The passphrase is
    stored exactly when 2FA was asked for.  Every lobby found before is
    found as before.  When the route answers anything else the
    collection is as it was. *)
Theorem create_adds_one_lobby db c r db' :
  Create.createLobby db c = Some (r, db') ->
  (Create.code r = 201 ->
   exists s p l,
     Create.validated c = Some s
     /\ Create.game r = Some p
     /\ Repo.findOne db p = None
     /\ Repo.findOne db' p = Some l
     /\ db' = (db ++ [l])%list
     /\ owner l = token_id (Create.token c)
     /\ maxPlayers l = Create.set_maxPlayers s
     /\ players l = [mkPlayer (token_name (Create.token c)) None true true]
     /\ passphrase l
        = (if Create.set_with2FA s then Some (Create.phrase c) else None)
     /\ with2FA l = Create.set_with2FA s
     /\ forall q old, Repo.findOne db q = Some old ->
                      Repo.findOne db' q = Some old)
  /\ (Create.code r <> 201 -> db' = db).
Proof.
  intros Hc. split; [|now apply (createLobby_not_created db c r db')].
  intros Hok.
  destruct (createLobby_created db c r db' Hc Hok)
    as (s & p & Hv & _ & Hfree & -> & ->).
  exists s, p, (Create.newGame c s p).
  split; [exact Hv|]. split; [reflexivity|].
  split; [now apply findOne_none|].
  split; [now apply (findOne_save_new db (Create.newGame c s p))|].
  repeat (split; [reflexivity|]).
  intros q old Hq. now apply findOne_save_old.
Qed.

Lemma create_adds_one_lobby_witness :
  exists s p l,
    Create.validated Fresh.call = Some s
    /\ Create.game (Create.Created "777888") = Some p
    /\ Repo.findOne Sample.db p = None
    /\ Repo.findOne Fresh.db p = Some l
    /\ Fresh.db = (Sample.db ++ [l])%list
    /\ owner l = token_id (Create.token Fresh.call)
    /\ maxPlayers l = Create.set_maxPlayers s
    /\ players l
       = [mkPlayer (token_name (Create.token Fresh.call)) None true true]
    /\ passphrase l
       = (if Create.set_with2FA s then Some (Create.phrase Fresh.call)
          else None)
    /\ with2FA l = Create.set_with2FA s
    /\ forall q old, Repo.findOne Sample.db q = Some old ->
                     Repo.findOne Fresh.db q = Some old.
Proof.
  apply (proj1 (create_adds_one_lobby Sample.db Fresh.call
                  (Create.Created "777888") Fresh.db eq_refl)).
  reflexivity.
Defined.

(** X15: once the create route has answered 201, a join under the new
    pin with a token bearing the creator's name is never accepted and
    writes nothing, whatever else the request carries: the creator holds
    the registered slot the route put in. *)
Theorem creator_cannot_join_again db c r db' p req t :
  Create.createLobby db c = Some (r, db') ->
  Create.game r = Some p ->
  req_pin req = p ->
  req_token req = Some t ->
  token_name t = token_name (Create.token c) ->
  res_code (response (joinLobby db' req)) <> 200
  /\ writes (joinLobby db' req) = []
  /\ stored (joinLobby db' req) = db'.
Proof.
  intros Hc Hgame Hpin Ht Hname.
  assert (Create.code r = 201) as Hok.
  { unfold Create.createLobby in Hc.
    destruct (Create.validated c); [|injection Hc as <- _; discriminate].
    destruct (Create.pickPin db (Create.pins c)); [|discriminate].
    destruct (Create.saveFails c); injection Hc as <- _;
      [discriminate | reflexivity]. }
  destruct (createLobby_created db c r db' Hc Hok)
    as (s & p' & _ & _ & Hfree & -> & ->).
  injection Hgame as ->. subst p.
  pose proof (findOne_save_new db (Create.newGame c s (req_pin req)) Hfree)
    as Hfind.
  simpl pin in Hfind.
  destruct (joinLobby_cases
              (Create.save db (Create.newGame c s (req_pin req))) req)
    as [(rej & -> & Hrej)|Hj].
  - simpl. repeat split.
    destruct Hrej as [ -> | [ -> | [ -> | [ -> | [ -> | -> ]]]]]; discriminate.
  - exfalso.
    destruct (joinLobby_accepted _ req Hj)
      as (l & n & reg & Hl & _ & _ & _ & Hi & _).
    rewrite Hfind in Hl. injection Hl as <-.
    destruct (resolveIdentity_account (Create.newGame c s (req_pin req))
                req t Ht)
      as [[Hr _]|[_ Hnot]]; [congruence|].
    apply Hnot.
    exists (mkPlayer (token_name (Create.token c)) None true true).
    simpl. repeat split; [now left | now symmetry].
Qed.

Lemma creator_cannot_join_again_witness :
  let req := Sample.account "777888" 80%N "zoe" (Js.Str "K3PX") in
  res_code (response (joinLobby Fresh.db req)) <> 200
  /\ writes (joinLobby Fresh.db req) = []
  /\ stored (joinLobby Fresh.db req) = Fresh.db.
Proof.
  intros req.
  exact (creator_cannot_join_again Sample.db Fresh.call
           (Create.Created "777888") Fresh.db "777888" req
           (mkTokenData 80%N "zoe") eq_refl eq_refl eq_refl eq_refl eq_refl).
Defined.

(** X16: once the create route has answered 201, a delete under the
    new pin with the creator's token, the driver not failing, answers
    200, emits the closure event and leaves the collection exactly as
    it was before the creation. *)
Theorem create_then_delete db c r db' p req t :
  Create.createLobby db c = Some (r, db') ->
  Create.game r = Some p ->
  req_pin req = p ->
  req_token req = Some t ->
  token_id t = token_id (Create.token c) ->
  deleteLobby false db' req
  = mkOutcome Deleted db [DeleteByPin p]
              [mkLobbyEvent p CLOSE "lobby_closed"].
Proof.
  intros Hc Hgame Hpin Ht Hid.
  assert (Create.code r = 201) as Hok.
  { unfold Create.createLobby in Hc.
    destruct (Create.validated c); [|injection Hc as <- _; discriminate].
    destruct (Create.pickPin db (Create.pins c)); [|discriminate].
    destruct (Create.saveFails c); injection Hc as <- _;
      [discriminate | reflexivity]. }
  destruct (createLobby_created db c r db' Hc Hok)
    as (s & p' & _ & _ & Hfree & -> & ->).
  injection Hgame as ->.
  pose proof (findOne_save_new db (Create.newGame c s p) Hfree) as Hfind.
  pose proof (deleteOne_save db (Create.newGame c s p) Hfree) as Hdel.
  simpl pin in Hfind, Hdel. unfold deleteLobby.
  rewrite Hpin, Hfind, Ht. simpl. rewrite Hid, N.eqb_refl. simpl.
  now rewrite Hdel.
Qed.

Lemma create_then_delete_witness :
  deleteLobby false Fresh.db (Sample.account "777888" 80%N "zoe" Js.Undefined)
  = mkOutcome Deleted Sample.db [DeleteByPin "777888"]
              [mkLobbyEvent "777888" CLOSE "lobby_closed"].
Proof.
  exact (create_then_delete Sample.db Fresh.call (Create.Created "777888")
           Fresh.db "777888"
           (Sample.account "777888" 80%N "zoe" Js.Undefined)
           (mkTokenData 80%N "zoe") eq_refl eq_refl eq_refl eq_refl eq_refl).
Defined.

(** X17: once the create route has answered 201 for settings with
    2FA, a join under the new pin is accepted only if its passphrase
    field is the very string the passphrase generator returned; that
    string then has four code units, so a lobby whose generated
    passphrase had another length could not be joined at all. *)
Theorem create_2fa_join_needs_phrase db c r db' p s req :
  Create.createLobby db c = Some (r, db') ->
  Create.game r = Some p ->
  Create.validated c = Some s ->
  Create.set_with2FA s = true ->
  req_pin req = p ->
  res_code (response (joinLobby db' req)) = 200 ->
  body_passphrase (req_body req) = Js.Str (Create.phrase c)
  /\ String.length (Create.phrase c) = 4%nat.
Proof.
  intros Hc Hgame Hv H2fa Hpin Hj.
  assert (Create.code r = 201) as Hok.
  { unfold Create.createLobby in Hc. rewrite Hv in Hc.
    destruct (Create.pickPin db (Create.pins c)); [|discriminate].
    destruct (Create.saveFails c); injection Hc as <- _;
      [discriminate | reflexivity]. }
  destruct (createLobby_created db c r db' Hc Hok)
    as (s' & p' & Hv' & _ & Hfree & -> & ->).
  rewrite Hv in Hv'. injection Hv' as <-. injection Hgame as ->. subst p.
  pose proof (findOne_save_new db (Create.newGame c s (req_pin req)) Hfree)
    as Hfind.
  simpl pin in Hfind.
  destruct (joinLobby_accepted _ req Hj)
    as (l & n & reg & Hl & Hshape & _ & Hp & _).
  rewrite Hfind in Hl. injection Hl as <-.
  unfold Create.newGame in Hp. cbn [with2FA passphrase] in Hp.
  rewrite H2fa in Hp. cbn [andb Js.of_option] in Hp.
  apply negb_false_iff, strict_eq_true in Hp.
  rewrite <- Hp in Hshape. simpl in Hshape.
  split; [now symmetry | now apply Nat.eqb_eq].
Qed.

Lemma create_2fa_join_needs_phrase_witness :
  let req := Sample.anonymous "777888" (Js.Str "K3PX") (Js.Str "eve") in
  body_passphrase (req_body req) = Js.Str (Create.phrase Fresh.call)
  /\ String.length (Create.phrase Fresh.call) = 4%nat.
Proof.
  intros req.
  exact (create_2fa_join_needs_phrase Sample.db Fresh.call
           (Create.Created "777888") Fresh.db "777888" Fresh.settings req
           eq_refl eq_refl eq_refl eq_refl eq_refl eq_refl).
Defined.

(** ** One document per pin *)





(** ** Edges of the slot placement *)

(** X19: the capacity gate is an equality test.  A waiting lobby whose
    confirmed count already exceeds maxPlayers is not closed: a join
    with an account that holds no registered slot, a well-formed
    passphrase field and no passphrase mismatch is accepted, and since
    the array is then longer than maxPlayers the new slot is appended. *)
Theorem join_over_capacity_appends db req lobby t :
  Repo.findOne db (req_pin req) = Some lobby ->
  status lobby = WAITING ->
  (maxPlayers lobby < Js.of_length (confirmedCount lobby))%Q ->
  Joi.passphraseValidator (body_passphrase (req_body req)) = true ->
  passphraseMismatch lobby req = false ->
  req_token req = Some t ->
  ~ holdsRegistered lobby (token_name t) ->
  res_code (response (joinLobby db req)) = 200
  /\ writes (joinLobby db req)
     = [UpdatePlayers (_id lobby)
          (players lobby ++ [mkPlayer (token_name t) None false true])%list].
Proof.
  intros Hfind Hst Hover Hv Hp Ht Hfree.
  assert (lobbyClosed lobby = false) as Hc.
  { apply lobbyClosed_false. split; [exact Hst|].
    intros Heq. rewrite Heq in Hover. now apply Qlt_irrefl in Hover. }
  assert (~ (Js.of_length (length (players lobby)) == maxPlayers lobby)%Q)
    as Hroom.
  { intros Heq. rewrite <- Heq in Hover. apply Qlt_not_le in Hover.
    apply Hover, of_length_le, filter_length_le. }
  unfold passphraseMismatch in Hp. unfold joinLobby.
  rewrite Hfind, Hv, Hc, Hp. simpl.
  destruct (resolveIdentity_account lobby req t Ht) as [[_ Hh]|[-> _]];
    [contradiction|].
  simpl. split; [reflexivity|].
  now rewrite (placePlayer_append _ _ Hroom).
Qed.

Lemma join_over_capacity_appends_witness :
  let crowded :=
    mkLobby 9%N "121212" None false 1%Q WAITING 70%N [Sample.ann; Sample.dan] in
  let req := Sample.account "121212" 72%N "eve" Js.Undefined in
  res_code (response (joinLobby [crowded] req)) = 200
  /\ writes (joinLobby [crowded] req)
     = [UpdatePlayers 9%N
          [Sample.ann; Sample.dan; mkPlayer "eve" None false true]].
Proof.
  intros crowded req.
  apply (join_over_capacity_appends [crowded] req crowded
           (mkTokenData 72%N "eve")); try reflexivity.
  intros (p & Hin & Hr & Hn). simpl in Hin.
  destruct Hin as [<-|[<-|[]]]; discriminate.
Defined.

(** Overwriting the slot the search found by another slot the search
    accepts leaves the search where it was. *)
Lemma findIndex_insert_same {A : Type} (f : A -> bool) (l : list A)
      (i : nat) (v : A) :
  Js.findIndex f l = Z.of_nat i -> f v = true ->
  Js.findIndex f (<[i := v]> l) = Z.of_nat i.
Proof.
  revert i. induction l as [|x xs IH]; intros i; simpl; [lia|].
  destruct (f x) eqn:Fx.
  - intros Hi Fv. assert (i = 0%nat) as -> by lia. simpl. now rewrite Fv.
  - destruct (Js.findIndex f xs <? 0) eqn:E; [lia|].
    apply Z.ltb_ge in E. intros Hi Fv. destruct i as [|i]; [lia|].
    simpl. rewrite Fx, (IH i); [|lia | exact Fv].
    destruct (Z.of_nat i <? 0) eqn:E'; [apply Z.ltb_lt in E'|]; lia.
Qed.

(** X20: on a lobby whose slots are all allocated, with ids unique,
    two joins accepted one after the other land in the same slot, the
    first one that is not confirmed.  After the first join that index
    holds the joiner of the first request; after the second it holds
    the joiner of the second request, every other index holds what the
    lobby held before either join, and the slot placed for the first
    request is gone from that index. *)
Theorem second_join_overwrites_first db req1 req2 lobby :
  List.NoDup (map _id db) ->
  Repo.findOne db (req_pin req1) = Some lobby ->
  (Js.of_length (length (players lobby)) == maxPlayers lobby)%Q ->
  req_pin req2 = req_pin req1 ->
  res_code (response (joinLobby db req1)) = 200 ->
  res_code (response (joinLobby (stored (joinLobby db req1)) req2)) = 200 ->
  exists (i : nat) old p1 p2,
    joiner req1 = Some p1
    /\ joiner req2 = Some p2
    /\ players lobby !! i = Some old
    /\ confirmed old = false
    /\ (forall j y, (j < i)%nat -> players lobby !! j = Some y ->
                    confirmed y = true)
    /\ Repo.findOne (stored (joinLobby db req1)) (req_pin req1)
       = Some (set_players lobby (<[i := p1]> (players lobby)))
    /\ Repo.findOne (stored (joinLobby (stored (joinLobby db req1)) req2))
                    (req_pin req1)
       = Some (set_players lobby (<[i := p2]> (players lobby)))
    /\ <[i := p1]> (players lobby) !! i = Some p1
    /\ <[i := p2]> (players lobby) !! i = Some p2
    /\ forall j, j <> i ->
                 <[i := p2]> (players lobby) !! j = players lobby !! j.
Proof.
  intros Hids Hfind Hfull Hpin Hok1 Hok2.
  pose proof (proj1 (proj2 (joinLobby_keys db req1))) as Hkeys.
  destruct (joinLobby_accepted db req1 Hok1)
    as (l1 & n1 & reg1 & Hl1 & _ & Hc1 & _ & Hi1 & Hj1).
  rewrite Hfind in Hl1. injection Hl1 as <-.
  rewrite Hj1 in Hok2, Hkeys |- *. simpl stored in *.
  apply resolveIdentity_joiner in Hi1.
  set (p1 := mkPlayer n1 None false reg1) in *.
  pose proof Hc1 as Hgate. apply lobbyClosed_false in Hgate as [_ Hgate].
  destruct (placePlayer_overwrite lobby p1 Hgate Hfull)
    as (i & old & Hidx & Hold & Hu & Hmin & Hps1).
  pose proof (findOne_findOneAndUpdate db (req_pin req1) lobby
                (placePlayer lobby p1) Hids Hfind) as Hfind1.
  set (db1 := Repo.findOneAndUpdate db (_id lobby) (placePlayer lobby p1))
    in *.
  assert (List.NoDup (map _id db1)) as Hids1 by now rewrite Hkeys.
  destruct (joinLobby_accepted db1 req2 Hok2)
    as (l2 & n2 & reg2 & Hl2 & _ & _ & _ & Hi2 & Hj2).
  rewrite Hpin, Hfind1 in Hl2. injection Hl2 as <-. rewrite Hj2.
  apply resolveIdentity_joiner in Hi2.
  simpl stored. set (p2 := mkPlayer n2 None false reg2) in *.
  pose proof (lookup_lt_Some _ _ _ Hold) as Hlt.
  exists i, old, p1, p2.
  repeat (split; [assumption|]).
  split; [now rewrite Hfind1, Hps1|]. split.
  - rewrite (findOne_findOneAndUpdate db1 (req_pin req1)
               (set_players lobby (placePlayer lobby p1)) _ Hids1 Hfind1).
    f_equal. unfold set_players. simpl. f_equal. rewrite Hps1.
    unfold placePlayer, Js.assign. simpl players. simpl maxPlayers.
    rewrite length_insert. apply number_eq_true in Hfull. rewrite Hfull.
    rewrite (findIndex_insert_same _ _ i p1 Hidx eq_refl).
    destruct (Z.of_nat i <? 0) eqn:E; [apply Z.ltb_lt in E; lia|].
    rewrite Nat2Z.id. apply list_insert_insert_eq.
  - split; [now apply list_lookup_insert_eq|].
    split; [now apply list_lookup_insert_eq|].
    intros j Hj. apply list_lookup_insert_ne. congruence.
Qed.

Lemma second_join_overwrites_first_witness :
  let req1 := Sample.anonymous "555666" (Js.Str "Q7ZK") (Js.Str "eve") in
  let req2 := Sample.account "555666" 72%N "fay" (Js.Str "Q7ZK") in
  Repo.findOne (stored (joinLobby Sample.db req1)) "555666"
  = Some (set_players Sample.stale_lobby
            [Sample.ann; mkPlayer "eve" None false false; Sample.dan])
  /\ Repo.findOne (stored (joinLobby (stored (joinLobby Sample.db req1))
                                     req2)) "555666"
     = Some (set_players Sample.stale_lobby
               [Sample.ann; mkPlayer "fay" None false true; Sample.dan]).
Proof.
  intros req1 req2.
  assert (List.NoDup (map _id Sample.db)) as Hids.
  { simpl. repeat constructor; simpl; intuition discriminate. }
  destruct (second_join_overwrites_first Sample.db req1 req2
              Sample.stale_lobby Hids eq_refl eq_refl eq_refl eq_refl
              eq_refl)
    as (i & old & p1 & p2 & H1 & H2 & Hold & Hu & Hmin & Hf1 & Hf2 & _).
  injection H1 as <-. injection H2 as <-.
  destruct i as [|[|[|i]]]; simpl in Hold; try discriminate;
    injection Hold as <-; try discriminate Hu.
  split; [exact Hf1 | exact Hf2].
Defined.

(** The sample lobby after the two joins: "eve" is gone, "fay" sits in
    the slot between the two confirmed players. *)
Example stale_lobby_after_two_joins :
  option_map players
    (Repo.findOne
       (joinAll Sample.db
          [Sample.anonymous "555666" (Js.Str "Q7ZK") (Js.Str "eve");
           Sample.account "555666" 72%N "fay" (Js.Str "Q7ZK")])
       "555666")
  = Some [Sample.ann; mkPlayer "fay" None false true; Sample.dan].
Proof. reflexivity. Qed.
